(** * psycopg2 [lib/sql.py]: the SQL composition module

    A shallow embedding of the classes [Composable], [Composed], [SQL],
    [Identifier], [Literal] and [Placeholder] of [lib/sql.py], and the
    properties of [+], [*], [join], [format] and [as_string] that the
    specification of the module states.

    Python values that the module receives from its callers are dynamically
    typed; they are modelled by [pyobj].  A raised exception is the [Raise]
    outcome of the [result] monad.  The three functions of the [extensions]
    module that rendering calls ([quote_ident], [adapt] and the connection
    encodings) and the standard library's [string.Formatter.parse] are not
    part of the file: rendering and formatting are parameterised by them. *)

From Stdlib Require Import ZArith Ascii String.
From Stdlib Require DecimalString.
From stdpp Require Import base option list gmap strings.

Local Open Scope string_scope.
Local Open Scope list_scope.
Set Warnings "-register-all".

(** ** Exceptions and the outcome of a call *)

(** One constructor per [raise] site of the module (and per failure of a
    built-in operation the module relies on), grouped by exception class. *)

Inductive value_error : Type :=
| NoFormatSpec                    (* "no format specification supported by SQL" *)
| NoFormatConversion              (* "no format conversion supported by SQL" *)
| AutoToManual                    (* "cannot switch from automatic field numbering to manual" *)
| ManualToAuto                    (* "cannot switch from manual field numbering to automatic" *)
| InvalidName (name : string)     (* "invalid name: %r" *)
| MalformedTemplate (msg : string)(* raised by the template parser *).

Inductive type_error : Type :=
| SQLNotString                    (* "SQL values must be strings" *)
| IdentifierNotString             (* "SQL identifiers must be strings" *)
| ComposedElement                 (* "Composed elements must be Composable, got %r instead" *)
| JoinArgument                    (* "Composed.join() argument must be a string or an SQL" *)
| PlaceholderName                 (* "expected string or None as name, got %r" *)
| NotConnOrCurs                   (* "conn_or_curs must be a connection or a cursor" *)
| UnsupportedOperand              (* the operator found no implementation *)
| CannotMultiply                  (* list repetition by a non-integer *).

Inductive exn : Type :=
| ValueError (why : value_error)
| TypeError (why : type_error)
| IndexError                      (* tuple index out of range *)
| KeyError (key : string)
| OverflowError                   (* an integer that does not fit an index *)
| StopIteration
| External (tag : string)         (* raised inside the [extensions] module *).

(** [LookupError] is the common base class of [IndexError] and [KeyError]. *)
Definition is_LookupError (e : exn) : bool :=
  match e with
  | IndexError | KeyError _ => true
  | _ => false
  end.

Inductive result (A : Type) : Type :=
| Ok (a : A)
| Raise (e : exn).
Arguments Ok {A} a.
Arguments Raise {A} e.

(** [result] is a monad; stdpp's notation [x ← r; k] is used for sequencing:
    an exception raised by [r] propagates, nothing is caught. *)
#[export] Instance result_ret : MRet result := @Ok.
#[export] Instance result_bind : MBind result :=
  fun A B (k : A → result B) (r : result A) =>
    match r with
    | Ok a => k a
    | Raise e => Raise e
    end.

(** ** The data model *)

(** A value handed to the module by its caller: either one of the module's
    own objects or any other Python object.  [Literal] wraps an arbitrary
    object, hence the mutual definition. *)

Inductive pyobj : Type :=
| PyNone
| PyBool (b : bool)
| PyInt (z : Z)
| PyStr (s : string)              (* an instance of [basestring] *)
| PyNode (c : Composable)         (* an instance of [Composable] *)
with Composable : Type :=
| Composed (_seq : list Composable)
| SQL (_wrapped : string)
| Identifier (_wrapped : string)
| Literal (_wrapped : pyobj)
| Placeholder (_name : option string).

(** ** Built-in operations of Python that the module uses *)

(** Truth value of a string: [if s:] holds for a non-empty string. *)
Definition truthy (s : string) : bool :=
  match s with
  | EmptyString => false
  | String _ _ => true
  end.

(** Truth value of an optional string, [None] being false. *)
Definition truthy_opt (o : option string) : bool :=
  match o with
  | None => false
  | Some s => truthy s
  end.

(** [c in s] for a one-character needle. *)
Fixpoint contains (c : ascii) (s : string) : bool :=
  match s with
  | EmptyString => false
  | String d s' => if Ascii.eqb d c then true else contains c s'
  end.

Definition is_digit (c : ascii) : bool :=
  let n := nat_of_ascii c in (48 <=? n)%nat && (n <=? 57)%nat.

Fixpoint all_digits (s : string) : bool :=
  match s with
  | EmptyString => true
  | String c s' => is_digit c && all_digits s'
  end.

(** [s.isdigit()]: every character is a digit and there is at least one. *)
Definition isdigit (s : string) : bool := truthy s && all_digits s.

Fixpoint int_acc (acc : nat) (s : string) : nat :=
  match s with
  | EmptyString => acc
  | String c s' => int_acc (10 * acc + (nat_of_ascii c - 48)) s'
  end.

(** [int(s)] on a string of digits. *)
Definition int (s : string) : nat := int_acc 0 s.

(** [''.join(rv)]. *)
Definition join_empty (rv : list string) : string := String.concat "" rv.

(** [for x in l: ...] over a fallible body. *)
Definition for_each {A B : Type} (body : A → result B) : list A → result (list B) :=
  fix loop (l : list A) : result (list B) :=
    match l with
    | [] => Ok []
    | x :: l' => y ← body x; rv ← loop l'; Ok (y :: rv)
    end.

(** ** Constructors *)

(** [Composed.__init__]: every element of [seq] must be a [Composable]; the
    first one that is not aborts the construction. *)
Definition Composed_init (seq : list pyobj) : result Composable :=
  _seq ← for_each (fun i =>
            match i with
            | PyNode c => Ok c
            | _ => Raise (TypeError ComposedElement)
            end) seq;
  Ok (Composed _seq).

(** [SQL.__init__]. *)
Definition SQL_init (string : pyobj) : result Composable :=
  match string with
  | PyStr s => Ok (SQL s)
  | _ => Raise (TypeError SQLNotString)
  end.

(** [Identifier.__init__]. *)
Definition Identifier_init (string : pyobj) : result Composable :=
  match string with
  | PyStr s => Ok (Identifier s)
  | _ => Raise (TypeError IdentifierNotString)
  end.

(** [Literal.__init__]. *)
Definition Literal_init (wrapped : pyobj) : result Composable :=
  Ok (Literal wrapped).

(** [Placeholder.__init__]; a call without argument passes [PyNone]. *)
Definition Placeholder_init (name : pyobj) : result Composable :=
  match name with
  | PyStr s =>
      if contains ")" s then Raise (ValueError (InvalidName s))
      else Ok (Placeholder (Some s))
  | PyNone => Ok (Placeholder None)
  | _ => Raise (TypeError PlaceholderName)
  end.

(** The module-level constants. *)
Definition PH : pyobj → result Composable := Placeholder_init.
Definition NULL : Composable := SQL "NULL".
Definition DEFAULT : Composable := SQL "DEFAULT".

(** ** Rendering: [as_string] *)

(** The argument of [as_string] is a connection, a cursor (which gives access
    to its connection) or something else. *)
Inductive context (connection : Type) : Type :=
| IsConnection (conn : connection)
| IsCursor (conn : connection)
| NeitherConnNorCurs.
Arguments IsConnection {connection} conn.
Arguments IsCursor {connection} conn.
Arguments NeitherConnNorCurs {connection}.

Section Rendering.
Context {connection : Type}.

(** [ext.quote_ident(name, conn_or_curs)]. *)
Variable quote_ident : string → context connection → result string.

(** [ext.adapt(obj)], prepared on the connection, then [getquoted()],
    decoded with the connection's encoding where it returns bytes. *)
Variable getquoted : pyobj → connection → result string.

Definition Literal_as_string (_wrapped : pyobj)
    (conn_or_curs : context connection) : result string :=
  conn ← match conn_or_curs with
         | IsConnection conn => Ok conn
         | IsCursor curs_connection => Ok curs_connection
         | NeitherConnNorCurs => Raise (TypeError NotConnOrCurs)
         end;
  getquoted _wrapped conn.

Definition Placeholder_as_string (_name : option string) : string :=
  match _name with
  | Some name => "%(" +:+ name +:+ ")s"
  | None => "%s"
  end.

(** [as_string], dispatched on the class of the receiver. *)
Fixpoint as_string (self : Composable)
    (conn_or_curs : context connection) : result string :=
  match self with
  | Composed _seq =>
      rv ← for_each (fun i => as_string i conn_or_curs) _seq;
      Ok (join_empty rv)
  | SQL _wrapped => Ok _wrapped
  | Identifier _wrapped => quote_ident _wrapped conn_or_curs
  | Literal _wrapped => Literal_as_string _wrapped conn_or_curs
  | Placeholder _name => Ok (Placeholder_as_string _name)
  end.

End Rendering.

(** ** The operators [+] and [*] *)

(** An [__add__] method returns a new object or [NotImplemented]. *)
Inductive retval : Type :=
| Returned (c : Composable)
| NotImplemented.

(** In [__add__], [__mul__] and [join] the sequence given to [Composed(...)]
    is built from [Composable] objects only, so that the check of
    [Composed.__init__] cannot fail there (lemma [Composed_init_nodes] below):
    these calls are written with the constructor. *)

(** [Composed.__add__], the receiver being [Composed _seq]. *)
Definition Composed_add (_seq : list Composable) (other : pyobj) : retval :=
  match other with
  | PyNode (Composed other_seq) => Returned (Composed (_seq ++ other_seq))
  | PyNode other => Returned (Composed (_seq ++ [other]))
  | _ => NotImplemented
  end.

(** [Composable.__add__], inherited by the four leaf classes. *)
Definition Composable_add (self : Composable) (other : pyobj) : retval :=
  match other with
  | PyNode (Composed _) => Composed_add [self] other
  | PyNode other => Composed_add [self] (PyNode (Composed [other]))
  | _ => NotImplemented
  end.

(** Method resolution: [Composed] overrides [__add__]. *)
Definition __add__ (self : Composable) (other : pyobj) : retval :=
  match self with
  | Composed _seq => Composed_add _seq other
  | _ => Composable_add self other
  end.

(** The expression [self + other]: no operand of the model defines a
    reflected method, so [NotImplemented] ends in a [TypeError]. *)
Definition add (self : Composable) (other : pyobj) : result Composable :=
  match __add__ self other with
  | Returned c => Ok c
  | NotImplemented => Raise (TypeError UnsupportedOperand)
  end.

(** [sys.maxsize]: the largest index-sized integer (here of a 64-bit
    build); the index-sized integers are those from [- maxsize - 1] to
    [maxsize]. *)
Definition maxsize : Z := 2 ^ 63 - 1.

(** [[x] * n]: the count [n] is converted to an index-sized integer, which
    raises [OverflowError] when it does not fit; the result is a list of [n]
    references to [x], empty when [n] is negative.  A [bool] is an integer.
    Memory is not bounded. *)
Definition list_mul {A : Type} (x : A) (n : pyobj) : result (list A) :=
  match n with
  | PyInt z =>
      if (z <? - maxsize - 1)%Z || (maxsize <? z)%Z then Raise OverflowError
      else Ok (replicate (Z.to_nat z) x)
  | PyBool b => Ok (replicate (if b then 1 else 0)%nat x)
  | _ => Raise (TypeError CannotMultiply)
  end.

(** [Composable.__mul__], inherited by every class. *)
Definition __mul__ (self : Composable) (n : pyobj) : result Composable :=
  l ← list_mul self n;
  Ok (Composed l).

(** ** [Composed.join] *)

Definition Composed_join (_seq : list Composable) (joiner : pyobj)
    : result Composable :=
  joiner ← match joiner with
           | PyStr s => SQL_init (PyStr s)
           | PyNode (SQL s) => Ok (SQL s)
           | _ => Raise (TypeError JoinArgument)
           end;
  if (length _seq <=? 1)%nat then Ok (Composed _seq)
  else
    match _seq with
    | [] => Raise StopIteration
    | first :: it =>
        Ok (Composed (foldl (fun rv i => rv ++ [joiner; i]) [first] it))
    end.

(** ** [SQL.format] *)

(** One tuple [(pre, name, spec, conv)] produced by the template parser:
    the literal text before a replacement field and the three parts of the
    field, [None] where a part is absent. *)
Record parse_item : Type := Item {
  pre : string;
  name : option string;
  spec : option string;
  conv : option string
}.

(** The parser is a generator: it yields [items] one after the other and
    then either stops or raises a [ValueError] on a malformed template. *)
Record parsed : Type := Parsed {
  items : list parse_item;
  failure : option string
}.

(** [args[i]] on the tuple of positional arguments. *)
Definition tuple_getitem (args : list pyobj) (i : nat) : result pyobj :=
  match args !! i with
  | Some a => Ok a
  | None => Raise IndexError
  end.

(** [kwargs[name]] on the dictionary of keyword arguments. *)
Definition dict_getitem (kwargs : gmap string pyobj) (key : string) : result pyobj :=
  match kwargs !! key with
  | Some a => Ok a
  | None => Raise (KeyError key)
  end.

(** [if autonum:], where [autonum] is an integer or [None]. *)
Definition autonum_truthy (autonum : option nat) : bool :=
  match autonum with
  | Some (S _) => true
  | _ => false
  end.

(** The variables of the loop of [format]. *)
Record format_state : Type := State {
  rv : list pyobj;
  autonum : option nat
}.

Section Format.
Variable args : list pyobj.
Variable kwargs : gmap string pyobj.

(** The body of the loop, for one tuple of the parser. *)
Definition format_step (st : format_state) (it : parse_item)
    : result format_state :=
  if truthy_opt (spec it) then Raise (ValueError NoFormatSpec)
  else if truthy_opt (conv it) then Raise (ValueError NoFormatConversion)
  else
    rv ← (if truthy (pre it)
          then s ← SQL_init (PyStr (pre it)); Ok (rv st ++ [PyNode s])
          else Ok (rv st));
    match name it with
    | None => Ok (State rv (autonum st))
    | Some name =>
        if isdigit name then
          if autonum_truthy (autonum st) then Raise (ValueError AutoToManual)
          else
            a ← tuple_getitem args (int name);
            Ok (State (rv ++ [a]) None)
        else if negb (truthy name) then
          match autonum st with
          | None => Raise (ValueError ManualToAuto)
          | Some n =>
              a ← tuple_getitem args n;
              Ok (State (rv ++ [a]) (Some (S n)))
          end
        else
          a ← dict_getitem kwargs name;
          Ok (State (rv ++ [a]) (autonum st))
    end.

(** The loop over the tuples that the parser yields. *)
Fixpoint format_loop (its : list parse_item) (st : format_state)
    : result format_state :=
  match its with
  | [] => Ok st
  | it :: its' => st' ← format_step st it; format_loop its' st'
  end.

Definition format_init : format_state := State [] (Some 0%nat).

(** [SQL.format], the receiver being [SQL _wrapped]; [parse] stands for
    [_formatter.parse]. *)
Definition SQL_format (parse : string → parsed) (_wrapped : string)
    : result Composable :=
  let p := parse _wrapped in
  st ← format_loop (items p) format_init;
  match failure p with
  | Some msg => Raise (ValueError (MalformedTemplate msg))
  | None => Composed_init (rv st)
  end.

End Format.

(** ** The template parser of the standard library

    [string.Formatter.parse] is not part of the module.  The statements below
    hold for every parser; [Formatter_parse] follows the iterator of CPython
    2.7 ([MarkupIterator_next] and [parse_field]) and serves to run [format]
    on concrete templates. *)

Definition yield (it : parse_item) (p : parsed) : parsed :=
  Parsed (it :: items p) (failure p).

Definition stop : parsed := Parsed [] None.

Definition fail (msg : string) : parsed := Parsed [] (Some msg).

Definition snoc (s : string) (c : ascii) : string := s +:+ String c EmptyString.

(** The text of a replacement field: the name runs up to the first [':'] or
    ['!']; ['!'] is followed by one conversion character and then, if there
    is more, by [':']; the rest is the format specification. *)
Fixpoint split_name (acc s : string) : string * option (ascii * string) :=
  match s with
  | EmptyString => (acc, None)
  | String c s' =>
      if Ascii.eqb c ":" || Ascii.eqb c "!" then (acc, Some (c, s'))
      else split_name (snoc acc c) s'
  end.

Definition parse_field (lit markup : string) : string + parse_item :=
  match split_name "" markup with
  | (nm, None) => inr (Item lit (Some nm) (Some "") None)
  | (nm, Some (c, rest)) =>
      if Ascii.eqb c "!" then
        match rest with
        | EmptyString =>
            inl "end of format while looking for conversion specifier"
        | String cv EmptyString =>
            inr (Item lit (Some nm) (Some "") (Some (String cv "")))
        | String cv (String c' rest') =>
            if Ascii.eqb c' ":"
            then inr (Item lit (Some nm) (Some rest') (Some (String cv "")))
            else inl "expected ':' after format specifier"
        end
      else inr (Item lit (Some nm) (Some rest) None)
  end.

Inductive scan_mode : Type :=
| InLiteral (lit : string)
| InMarkup (lit : string) (count : nat) (markup : string).

Fixpoint scan (s : string) (m : scan_mode) : parsed :=
  match m with
  | InLiteral lit =>
      match s with
      | EmptyString =>
          if truthy lit then yield (Item lit None None None) stop else stop
      | String c rest =>
          if Ascii.eqb c "{" then
            match rest with
            | EmptyString => fail "Single '{' encountered in format string"
            | String c' rest' =>
                if Ascii.eqb c' "{"
                then yield (Item (snoc lit c) None None None)
                           (scan rest' (InLiteral ""))
                else scan rest (InMarkup lit 1 "")
            end
          else if Ascii.eqb c "}" then
            match rest with
            | EmptyString => fail "Single '}' encountered in format string"
            | String c' rest' =>
                if Ascii.eqb c' "}"
                then yield (Item (snoc lit c) None None None)
                           (scan rest' (InLiteral ""))
                else fail "Single '}' encountered in format string"
            end
          else scan rest (InLiteral (snoc lit c))
      end
  | InMarkup lit count markup =>
      match s with
      | EmptyString => fail "unmatched '{' in format"
      | String c rest =>
          if Ascii.eqb c "{" then
            scan rest (InMarkup lit (S count) (snoc markup c))
          else if Ascii.eqb c "}" then
            match count with
            | S (S count') =>
                scan rest (InMarkup lit (S count') (snoc markup c))
            | _ =>
                match parse_field lit markup with
                | inl msg => fail msg
                | inr it => yield it (scan rest (InLiteral ""))
                end
            end
          else scan rest (InMarkup lit count (snoc markup c))
      end
  end.

Definition Formatter_parse (format_string : string) : parsed :=
  scan format_string (InLiteral "").

(** ** Notions of the specification

    The definitions of this section follow the words of the specification;
    the theorems compare them with the code above. *)


(** The elements of [l] with one copy of [sep] between every adjacent pair. *)
Fixpoint interpose {A : Type} (sep : A) (l : list A) : list A :=
  match l with
  | [] => []
  | [x] => [x]
  | x :: l' => x :: sep :: interpose sep l'
  end.

(** A string contains the character [c]. *)
Definition has_char (c : ascii) (s : string) : Prop :=
  ∃ s1 s2 : string, s = s1 +:+ String c s2.

(** The sequence of a combination: a leaf counts as itself, a [Composed] as
    its full sequence. *)
Definition flat (c : Composable) : list Composable :=
  match c with
  | Composed _seq => _seq
  | _ => [c]
  end.

Definition is_leaf (c : Composable) : bool :=
  match c with
  | Composed _ => false
  | _ => true
  end.

(** The three kinds of marker, told apart by the field name. *)
Inductive marker : Type :=
| AutoNumbered
| ManualNumbered (index : nat)
| Named (key : string).

Definition marker_of (nm : string) : marker :=
  if isdigit nm then ManualNumbered (int nm)
  else if truthy nm then Named nm
  else AutoNumbered.

(** The kind of marker of a tuple of the parser; a tuple that only carries
    trailing literal text has none. *)
Definition marker_kind (it : parse_item) : option marker :=
  marker_of <$> name it.

(** The mode flag of the numbering state machine. *)
Inductive mode : Type :=
| Unset
| Auto
| Manual.

(** The mode that a value of the loop variable [autonum] stands for. *)
Definition mode_of (autonum : option nat) : mode :=
  match autonum with
  | None => Manual
  | Some O => Unset
  | Some (S _) => Auto
  end.

(** A tuple of the parser that carries neither a format specification nor a
    conversion. *)
Definition plain (it : parse_item) : bool :=
  negb (truthy_opt (spec it)) && negb (truthy_opt (conv it)).

(** The node emitted for the literal text of a tuple: none when there is no
    text. *)
Definition literal (it : parse_item) : list Composable :=
  if truthy (pre it) then [SQL (pre it)] else [].

(** The children that [format] is to produce, as the specification describes
    them: going through the tuples of the parser from left to right, the
    literal text of a tuple (if any) as its own [SQL] node, then the argument
    that its marker selects.  The relation carries the mode flag and the
    index of the next auto-numbered marker; a marker that switches between
    automatic and manual numbering has no resolution, nor has a tuple with a
    format specification or a conversion, nor a marker without argument. *)
Section Interleaving.
Variable args : list pyobj.
Variable kwargs : gmap string pyobj.

Inductive interleaved : mode → nat → list parse_item → list pyobj → Prop :=
| interleaved_end m next :
    interleaved m next [] []
| interleaved_text m next it its l :
    plain it = true → name it = None →
    interleaved m next its l →
    interleaved m next (it :: its) ((PyNode <$> literal it) ++ l)
| interleaved_auto m next it its nm a l :
    plain it = true → name it = Some nm → marker_of nm = AutoNumbered →
    m ≠ Manual → args !! next = Some a →
    interleaved Auto (S next) its l →
    interleaved m next (it :: its) ((PyNode <$> literal it) ++ a :: l)
| interleaved_manual m next it its nm index a l :
    plain it = true → name it = Some nm →
    marker_of nm = ManualNumbered index →
    m ≠ Auto → args !! index = Some a →
    interleaved Manual next its l →
    interleaved m next (it :: its) ((PyNode <$> literal it) ++ a :: l)
| interleaved_named m next it its nm key a l :
    plain it = true → name it = Some nm → marker_of nm = Named key →
    kwargs !! key = Some a →
    interleaved m next its l →
    interleaved m next (it :: its) ((PyNode <$> literal it) ++ a :: l).

End Interleaving.

(** The mode flag and the next automatic index that a value of [autonum]
    stands for. *)
Definition agrees (m : mode) (next : nat) (autonum : option nat) : Prop :=
  mode_of autonum = m ∧ ∀ n, autonum = Some n → n = next.

(** What a successful turn of the loop has done. *)
Inductive step_done (args : list pyobj) (kwargs : gmap string pyobj)
    (st : format_state) (it : parse_item) : format_state → Prop :=
| done_text :
    name it = None →
    step_done args kwargs st it
      (State (rv st ++ (PyNode <$> literal it)) (autonum st))
| done_auto nm n a :
    name it = Some nm → marker_of nm = AutoNumbered →
    autonum st = Some n → args !! n = Some a →
    step_done args kwargs st it
      (State (rv st ++ (PyNode <$> literal it) ++ [a]) (Some (S n)))
| done_manual nm index a :
    name it = Some nm → marker_of nm = ManualNumbered index →
    mode_of (autonum st) ≠ Auto → args !! index = Some a →
    step_done args kwargs st it
      (State (rv st ++ (PyNode <$> literal it) ++ [a]) None)
| done_named nm key a :
    name it = Some nm → marker_of nm = Named key →
    kwargs !! key = Some a →
    step_done args kwargs st it
      (State (rv st ++ (PyNode <$> literal it) ++ [a]) (autonum st)).

(** ** [SQL.join] *)

(** The argument of [SQL.join]: a [Composed], whose sequence is taken, or
    another iterable, given by the objects it yields. *)
Inductive join_arg : Type :=
| JoinComposed (_seq : list Composable)
| JoinIterable (objects : list pyobj).

(** [SQL.join], the receiver being [SQL _wrapped]. *)
Definition SQL_join (_wrapped : string) (seq : join_arg) : result Composable :=
  let seq := match seq with
             | JoinComposed _seq => PyNode <$> _seq
             | JoinIterable objects => objects
             end in
  let rv := match seq with
            | [] => []
            | first :: it =>
                foldl (fun rv i => rv ++ [PyNode (SQL _wrapped); i]) [first] it
            end in
  Composed_init rv.

(** ** Further notions *)

(** [isinstance(o, Composable)]. *)
Definition is_node (o : pyobj) : bool :=
  match o with
  | PyNode _ => true
  | _ => false
  end.

(** The [Composable] objects among a sequence of objects. *)
Definition nodes_of (seq : list pyobj) : list Composable :=
  omap (fun o => match o with PyNode c => Some c | _ => None end) seq.

(** A node whose sequence holds leaves only: a leaf, or a [Composed] without
    a [Composed] among its children. *)
Definition leaves_only (c : Composable) : bool := forallb is_leaf (flat c).

(** A node made of [SQL] and [Placeholder] objects only, at any depth. *)
Fixpoint context_free (c : Composable) : bool :=
  match c with
  | Composed _seq => forallb context_free _seq
  | SQL _ | Placeholder _ => true
  | Identifier _ | Literal _ => false
  end.

(** The text of such a node. *)
Fixpoint text_of (c : Composable) : string :=
  match c with
  | Composed _seq => join_empty (map text_of _seq)
  | SQL _wrapped => _wrapped
  | Placeholder (Some nm) => "%(" +:+ nm +:+ ")s"
  | Placeholder None => "%s"
  | Identifier _ | Literal _ => ""
  end.

(** A node without [Identifier], at any depth. *)
Fixpoint identifier_free (c : Composable) : bool :=
  match c with
  | Composed _seq => forallb identifier_free _seq
  | Identifier _ => false
  | SQL _ | Literal _ | Placeholder _ => true
  end.

(** The context of a cursor's connection. *)
Definition connection_of {connection : Type} (ctx : context connection)
    : context connection :=
  match ctx with
  | IsCursor conn => IsConnection conn
  | _ => ctx
  end.

(** A tuple of the parser that is an auto-numbered marker or trailing text,
    without format specification or conversion. *)
Definition auto_or_text (it : parse_item) : bool :=
  plain it &&
  match name it with
  | None => true
  | Some nm => negb (truthy nm)
  end.

(** The number of markers among the tuples of the parser. *)
Definition count_markers (its : list parse_item) : nat :=
  length (filter (fun it => is_Some (name it)) its).

(** The number of tuples of the parser with literal text. *)
Definition count_literals (its : list parse_item) : nat :=
  length (filter (fun it => truthy (pre it) = true) its).

(** The children of a template of auto-numbered markers: the literal texts
    and, marker after marker, the positional arguments in their order. *)
Fixpoint fill_auto (its : list parse_item) (args : list pyobj) : list pyobj :=
  match its with
  | [] => []
  | it :: its' =>
      (PyNode <$> literal it) ++
      match name it with
      | None => fill_auto its' args
      | Some _ =>
          match args with
          | [] => []
          | a :: args' => a :: fill_auto its' args'
          end
      end
  end.

(** [Placeholder.__repr__]; [repr] stands for the conversion [%r] of a
    string, which is Python's. *)
Definition Placeholder_repr (repr : string → string) (_name : option string)
    : string :=
  "sql.Placeholder(" +:+
    repr (match _name with Some nm => nm | None => "" end) +:+ ")".

(** ** The template, as the specification reads it *)



(** The children of the result of [format] for the tuples that the template
    parser yields, from left to right: the literal text of a tuple, when
    there is some, as an [SQL] node of its own, then the argument that its
    placeholder selects.  The relation carries the mode flag and the index of
    the next auto-numbered placeholder. *)
Section TemplateChildren.
Variable args : list pyobj.
Variable kwargs : gmap string pyobj.


End TemplateChildren.


(** * Properties *)

(** ** The monad and the loops *)

Lemma bind_Ok {A B : Type} (a : A) (k : A → result B) : Ok a ≫= k = k a.
Proof. reflexivity. Qed.

Lemma bind_Raise {A B : Type} (e : exn) (k : A → result B) :
  Raise e ≫= k = Raise e.
Proof. reflexivity. Qed.

Lemma bind_inv_Ok {A B : Type} (r : result A) (k : A → result B) (b : B) :
  r ≫= k = Ok b → ∃ a, r = Ok a ∧ k a = Ok b.
Proof. destruct r as [a|e]; simpl; [eauto | discriminate]. Qed.

Lemma for_each_cons {A B : Type} (body : A → result B) (x : A) (l : list A) :
  for_each body (x :: l) = y ← body x; rv ← for_each body l; Ok (y :: rv).
Proof. reflexivity. Qed.

Lemma for_each_replicate_Ok {A B : Type} (body : A → result B) x y n :
  body x = Ok y → for_each body (replicate n x) = Ok (replicate n y).
Proof.
  intros Hx. induction n as [|n IH]; [reflexivity|].
  simpl replicate. rewrite for_each_cons, Hx, IH. reflexivity.
Qed.


(** ** Strings *)

Lemma append_String (c : ascii) (s t : string) :
  String c s +:+ t = String c (s +:+ t).
Proof. reflexivity. Qed.

Lemma append_empty_r (s : string) : s +:+ "" = s.
Proof.
  induction s as [|c s IH]; [reflexivity|].
  by rewrite append_String, IH.
Qed.

Lemma join_empty_cons (s : string) (rv : list string) :
  join_empty (s :: rv) = s +:+ join_empty rv.
Proof.
  unfold join_empty. destruct rv as [|s' rv].
  - symmetry. apply append_empty_r.
  - reflexivity.
Qed.


Lemma contains_has_char (c : ascii) (s : string) :
  contains c s = true ↔ has_char c s.
Proof.
  unfold has_char. induction s as [|d s IH]; simpl.
  - split; [discriminate|]. intros ([|? ?] & s2 & H); discriminate.
  - destruct (Ascii.eqb_spec d c) as [->|Hne].
    + split; [|done]. intros _. by exists "", s.
    + rewrite IH. split.
      * intros (s1 & s2 & ->). by exists (String d s1), s2.
      * intros ([|d' s1] & s2 & H); simpl in H; inversion H; subst; [done|eauto].
Qed.

(** ** Construction *)

Lemma for_each_nodes (l : list Composable) :
  for_each (fun i => match i with
                     | PyNode c => Ok c
                     | _ => Raise (TypeError ComposedElement)
                     end) (PyNode <$> l) = Ok l.
Proof.
  induction l as [|c l IH]; [reflexivity|].
  rewrite fmap_cons, for_each_cons, IH. reflexivity.
Qed.

(** On a sequence of [Composable] objects [Composed(...)] cannot fail. *)
Lemma Composed_init_nodes (l : list Composable) :
  Composed_init (PyNode <$> l) = Ok (Composed l).
Proof. unfold Composed_init. rewrite for_each_nodes. reflexivity. Qed.

Lemma Composed_init_inv (seq : list pyobj) (c : Composable) :
  Composed_init seq = Ok c → ∃ l, seq = PyNode <$> l ∧ c = Composed l.
Proof.
  unfold Composed_init. intros H.
  apply bind_inv_Ok in H as (l & Hl & [= <-]). exists l. split; [|done].
  revert l Hl. induction seq as [|i seq IH]; intros l Hl.
  - by injection Hl as <-.
  - rewrite for_each_cons in Hl.
    destruct i; try discriminate. simpl in Hl.
    apply bind_inv_Ok in Hl as (l' & Hl' & [= <-]).
    rewrite fmap_cons. f_equal. by apply IH.
Qed.

(** ** Rendering *)

Section RenderingFacts.
Context {connection : Type}.
Variable quote_ident : string → context connection → result string.
Variable getquoted : pyobj → connection → result string.

Abbreviation render := (as_string quote_ident getquoted).

Lemma as_string_Composed (l : list Composable) ctx :
  render (Composed l) ctx
  = rv ← for_each (fun i => render i ctx) l; Ok (join_empty rv).
Proof. reflexivity. Qed.



End RenderingFacts.

(** ** [SQL]: rendering is the identity *)

(** C6. For every text [s], [SQL(s)] is constructed, and for every context
    (and whatever the quoting functions of the driver do) it renders to
    exactly [s]: no escaping is applied. *)
Theorem SQL_as_string_identity :
  ∀ (connection : Type)
    (quote_ident : string → context connection → result string)
    (getquoted : pyobj → connection → result string)
    (s : string) (conn_or_curs : context connection),
    ∃ snippet,
      SQL_init (PyStr s) = Ok snippet ∧
      as_string quote_ident getquoted snippet conn_or_curs = Ok s.
Proof. intros. exists (SQL s). split; reflexivity. Qed.

(** ** [Placeholder] *)

(** C8. [Placeholder(name)] raises [ValueError] when [name] is a text that
    contains [')'], raises [TypeError] when [name] is neither a text nor
    absent, and succeeds when [name] is absent or a text without [')']. *)
Theorem Placeholder_init_validates_name :
  (∀ s : string, has_char ")" s →
     Placeholder_init (PyStr s) = Raise (ValueError (InvalidName s))) ∧
  (∀ name : pyobj, name ≠ PyNone → (∀ s, name ≠ PyStr s) →
     Placeholder_init name = Raise (TypeError PlaceholderName)) ∧
  Placeholder_init PyNone = Ok (Placeholder None) ∧
  (∀ s : string, ¬ has_char ")" s →
     Placeholder_init (PyStr s) = Ok (Placeholder (Some s))).
Proof.
  repeat split.
  - intros s Hs. apply contains_has_char in Hs. simpl. by rewrite Hs.
  - intros [| | |s|] Hnone Hstr; try reflexivity; [done | by destruct (Hstr s)].
  - intros s Hs. simpl. destruct (contains ")" s) eqn:E; [|done].
    apply contains_has_char in E. done.
Qed.

Lemma Placeholder_init_validates_name_witness :
  Placeholder_init (PyStr "a)b") = Raise (ValueError (InvalidName "a)b")) ∧
  Placeholder_init (PyInt 3) = Raise (TypeError PlaceholderName) ∧
  Placeholder_init (PyStr "name") = Ok (Placeholder (Some "name")).
Proof.
  destruct Placeholder_init_validates_name as (Hv & Ht & _ & Hok).
  split; [|split].
  - apply Hv. by exists "a", "b".
  - apply Ht; [discriminate | intros s; discriminate].
  - apply Hok. intros Hc. apply contains_has_char in Hc. discriminate Hc.
Defined.

(** C10. [Placeholder("")] is accepted, and in every context it renders to
    the named marker ["%()s"], which is not the positional marker ["%s"]. *)
Theorem Placeholder_empty_name :
  ∀ (connection : Type)
    (quote_ident : string → context connection → result string)
    (getquoted : pyobj → connection → result string)
    (conn_or_curs : context connection),
    ∃ p,
      Placeholder_init (PyStr "") = Ok p ∧
      as_string quote_ident getquoted p conn_or_curs = Ok "%()s" ∧
      as_string quote_ident getquoted p conn_or_curs ≠ Ok "%s".
Proof.
  intros. exists (Placeholder (Some "")). repeat split; discriminate.
Qed.

(** ** Repetition: [*] *)

Lemma maxsize_nonneg : (0 ≤ maxsize)%Z.
Proof. unfold maxsize. lia. Qed.

Lemma list_mul_fits {A : Type} (x : A) (z : Z) :
  (- maxsize - 1 ≤ z ≤ maxsize)%Z →
  list_mul x (PyInt z) = Ok (replicate (Z.to_nat z) x).
Proof.
  intros Hz. unfold list_mul.
  destruct (Z.ltb_spec z (- maxsize - 1)); [lia|].
  destruct (Z.ltb_spec maxsize z); [lia|]. reflexivity.
Qed.

Lemma list_mul_overflow {A : Type} (x : A) (z : Z) :
  (z < - maxsize - 1 ∨ maxsize < z)%Z →
  list_mul x (PyInt z) = Raise OverflowError.
Proof.
  intros Hz. unfold list_mul.
  destruct (Z.ltb_spec z (- maxsize - 1)); [reflexivity|].
  destruct (Z.ltb_spec maxsize z); [reflexivity|]. lia.
Qed.



(** C9, as the code has it.  For every node [x] and negative integer [n]
    that fits an index-sized integer ([- maxsize - 1 <= n < 0]), [x * n] does
    not fail: it is the empty [Composed], the same as [x * 0].  For a
    negative [n] below that range the repetition of the list raises
    [OverflowError]. *)
Theorem mul_negative (x : Composable) (n : Z) :
  (n < 0)%Z →
  ((- maxsize - 1 ≤ n)%Z →
   __mul__ x (PyInt n) = Ok (Composed []) ∧
   __mul__ x (PyInt n) = __mul__ x (PyInt 0)) ∧
  ((n < - maxsize - 1)%Z →
   __mul__ x (PyInt n) = Raise OverflowError).
Proof.
  intros Hn. pose proof maxsize_nonneg as Hmax. unfold __mul__. split.
  - intros Hfit. rewrite !list_mul_fits by lia.
    destruct n as [|p|p]; [lia | lia | done].
  - intros Hbelow. rewrite list_mul_overflow by lia. reflexivity.
Qed.

Lemma mul_negative_witness :
  (__mul__ (SQL "x") (PyInt (-3)) = Ok (Composed []) ∧
   __mul__ (SQL "x") (PyInt (-3)) = __mul__ (SQL "x") (PyInt 0)) ∧
  __mul__ (SQL "x") (PyInt (- 2 ^ 64)) = Raise OverflowError.
Proof.
  split.
  - apply (mul_negative (SQL "x") (-3)); [lia | unfold maxsize; lia].
  - apply (mul_negative (SQL "x") (- 2 ^ 64)); [lia | unfold maxsize; lia].
Defined.

(** C9 as the claim words it, for every negative integer, fails below the
    index-sized integers: [SQL("x") * (-2 ** 70)] raises [OverflowError]. *)
Lemma mul_below_index_size_overflows :
  (- 2 ^ 70 < 0)%Z ∧
  __mul__ (SQL "x") (PyInt (- 2 ^ 70)) = Raise OverflowError ∧
  ¬ (∀ (x : Composable) (n : Z),
       (n < 0)%Z → __mul__ x (PyInt n) = Ok (Composed [])).
Proof.
  split; [lia|]. split; [reflexivity|].
  intros H. specialize (H (SQL "x") (- 2 ^ 70)%Z ltac:(lia)).
  discriminate H.
Qed.

(** ** Combination: [+] *)

Lemma add_flat (x y : Composable) :
  add x (PyNode y) = Ok (Composed (flat x ++ flat y)).
Proof. destruct x, y; reflexivity. Qed.

(** C4, as the code has it.  A [Composed] receiver extends its sequence by
    the other leaf or by the other [Composed]'s full sequence; a leaf
    receiver yields a new [Composed] that starts with the receiver and goes
    on with the other leaf (two elements) or with the other [Composed]'s
    full sequence.  For all nodes [a], [b], [c] the combinations
    [(a + b) + c] and [a + (b + c)] both succeed and give the same
    [Composed], so that they render alike in every context. *)
Theorem add_rule_and_associativity :
  (∀ s y, is_leaf y = true →
     add (Composed s) (PyNode y) = Ok (Composed (s ++ [y]))) ∧
  (∀ s t, add (Composed s) (PyNode (Composed t)) = Ok (Composed (s ++ t))) ∧
  (∀ x y, is_leaf x = true → is_leaf y = true →
     add x (PyNode y) = Ok (Composed [x; y])) ∧
  (∀ x t, is_leaf x = true →
     add x (PyNode (Composed t)) = Ok (Composed (x :: t))) ∧
  (∀ a b c, ∃ ab bc left right,
     add a (PyNode b) = Ok ab ∧ add ab (PyNode c) = Ok left ∧
     add b (PyNode c) = Ok bc ∧ add a (PyNode bc) = Ok right ∧
     left = right ∧
     ∀ (connection : Type)
       (quote_ident : string → context connection → result string)
       (getquoted : pyobj → connection → result string)
       (conn_or_curs : context connection),
       as_string quote_ident getquoted left conn_or_curs
       = as_string quote_ident getquoted right conn_or_curs).
Proof.
  split; [|split; [|split; [|split]]].
  - intros s y Hy. by destruct y.
  - reflexivity.
  - intros x y Hx Hy. by destruct x, y.
  - intros x t Hx. by destruct x.
  - intros a b c.
    exists (Composed (flat a ++ flat b)), (Composed (flat b ++ flat c)),
           (Composed ((flat a ++ flat b) ++ flat c)),
           (Composed (flat a ++ (flat b ++ flat c))).
    rewrite !add_flat. simpl flat. rewrite (assoc_L (++)).
    repeat split; reflexivity.
Qed.

Lemma add_rule_and_associativity_witness :
  add (Composed [SQL "a"]) (PyNode (Identifier "b"))
  = Ok (Composed [SQL "a"; Identifier "b"]) ∧
  add (SQL "a") (PyNode (Identifier "b"))
  = Ok (Composed [SQL "a"; Identifier "b"]) ∧
  add (SQL "a") (PyNode (Composed [SQL "x"; SQL "y"]))
  = Ok (Composed [SQL "a"; SQL "x"; SQL "y"]).
Proof.
  destruct add_rule_and_associativity as (H1 & _ & H3 & H4 & _).
  split; [|split].
  - apply (H1 [SQL "a"] (Identifier "b")). reflexivity.
  - apply (H3 (SQL "a") (Identifier "b")); reflexivity.
  - apply (H4 (SQL "a") [SQL "x"; SQL "y"]). reflexivity.
Defined.

(** The rule of C4 for a leaf receiver, as the claim words it (the result has
    two elements), fails when the other operand is a [Composed]: its sequence
    is spliced in, here to a result of three elements. *)
Lemma add_leaf_to_Composed_splices :
  is_leaf (SQL "a") = true ∧
  add (SQL "a") (PyNode (Composed [SQL "x"; SQL "y"]))
  = Ok (Composed [SQL "a"; SQL "x"; SQL "y"]) ∧
  ¬ (∀ x y, is_leaf x = true →
       ∃ l, add x (PyNode y) = Ok (Composed l) ∧ length l = 2%nat).
Proof.
  split; [reflexivity|]. split; [reflexivity|].
  intros H.
  destruct (H (SQL "a") (Composed [SQL "x"; SQL "y"]) eq_refl)
    as (l & Hl & Hlen).
  injection Hl as <-. discriminate Hlen.
Qed.

(** ** [Composed.join] *)

Lemma foldl_join {A : Type} (sep : A) (it acc : list A) :
  foldl (fun rv i => rv ++ [sep; i]) acc it
  = acc ++ flat_map (fun i => [sep; i]) it.
Proof.
  revert acc. induction it as [|i it IH]; intros acc; simpl.
  - by rewrite (right_id_L [] (++)).
  - rewrite IH. by rewrite <- (assoc_L (++)).
Qed.

Lemma interpose_cons {A : Type} (sep x : A) (l : list A) :
  interpose sep (x :: l) = x :: flat_map (fun i => [sep; i]) l.
Proof.
  revert x. induction l as [|y l IH]; intros x; [reflexivity|].
  change (interpose sep (x :: y :: l)) with (x :: sep :: interpose sep (y :: l)).
  by rewrite IH.
Qed.

Lemma interpose_length {A : Type} (sep x : A) (l : list A) :
  length (interpose sep (x :: l)) = (2 * length (x :: l) - 1)%nat.
Proof.
  rewrite interpose_cons. simpl.
  induction l as [|y l IH]; simpl in *; lia.
Qed.

Lemma interpose_lookup_even {A : Type} (sep : A) (l : list A) (i : nat) :
  interpose sep l !! (2 * i)%nat = l !! i.
Proof.
  destruct l as [|x l]; [reflexivity|]. rewrite interpose_cons.
  revert x i. induction l as [|y l IH]; intros x [|i]; try reflexivity.
  replace (2 * S i)%nat with (S (S (2 * i))) by lia.
  simpl. apply IH.
Qed.

Lemma interpose_lookup_odd {A : Type} (sep : A) (l : list A) (i : nat) :
  (S i < length l)%nat → interpose sep l !! (2 * i + 1)%nat = Some sep.
Proof.
  destruct l as [|x l]; [simpl; lia|]. rewrite interpose_cons.
  revert x i. induction l as [|y l IH]; intros x i Hi; simpl in Hi; [lia|].
  destruct i as [|i]; [reflexivity|].
  replace (2 * S i + 1)%nat with (S (S (2 * i + 1))) by lia.
  simpl. apply IH. simpl. lia.
Qed.

(** C3. For a [Composed] of [k] children and a separator that is a text [s]
    or the node [SQL(s)]: when [k <= 1] the receiver itself is returned; when
    [k > 1] the result is a [Composed] of [2k - 1] elements, the children in
    order (at the even positions) with [SQL(s)] between every adjacent pair
    (at the odd positions). *)
Theorem Composed_join_interposes (_seq : list Composable) (joiner : pyobj)
    (s : string) :
  joiner = PyStr s ∨ joiner = PyNode (SQL s) →
  ((length _seq ≤ 1)%nat → Composed_join _seq joiner = Ok (Composed _seq)) ∧
  ((1 < length _seq)%nat →
     ∃ l, Composed_join _seq joiner = Ok (Composed l) ∧
          length l = (2 * length _seq - 1)%nat ∧
          l = interpose (SQL s) _seq ∧
          (∀ i, l !! (2 * i)%nat = _seq !! i) ∧
          (∀ i, (S i < length _seq)%nat → l !! (2 * i + 1)%nat = Some (SQL s))).
Proof.
  intros Hj.
  assert (Hsep : Composed_join _seq joiner
                 = if (length _seq <=? 1)%nat then Ok (Composed _seq)
                   else match _seq with
                        | [] => Raise StopIteration
                        | first :: it =>
                            Ok (Composed (foldl (fun rv i => rv ++ [SQL s; i])
                                            [first] it))
                        end).
  { by destruct Hj as [-> | ->]. }
  rewrite Hsep. split.
  - intros Hk. by apply Nat.leb_le in Hk as ->.
  - intros Hk. apply Nat.leb_gt in Hk as Hk'. rewrite Hk'.
    destruct _seq as [|first it]; [simpl in Hk; lia|].
    exists (interpose (SQL s) (first :: it)). split; [|split; [|split; [|split]]].
    + by rewrite foldl_join, interpose_cons.
    + apply interpose_length.
    + reflexivity.
    + intros i. apply interpose_lookup_even.
    + intros i Hi. by apply interpose_lookup_odd.
Qed.

Lemma Composed_join_interposes_witness :
  Composed_join [Identifier "foo"] (PyStr ", ")
  = Ok (Composed [Identifier "foo"]) ∧
  ∃ l, Composed_join [Identifier "foo"; Identifier "bar"] (PyStr ", ")
       = Ok (Composed l) ∧
       l = [Identifier "foo"; SQL ", "; Identifier "bar"].
Proof.
  split.
  - apply (Composed_join_interposes [Identifier "foo"] (PyStr ", ") ", ");
      [by left | simpl; lia].
  - destruct (Composed_join_interposes [Identifier "foo"; Identifier "bar"]
                (PyStr ", ") ", " (or_introl eq_refl)) as [_ H].
    destruct H as (l & Hl & _ & Heq & _); [simpl; lia|].
    exists l. split; [exact Hl | exact Heq].
Defined.

(** ** [SQL.format]: the loop *)

Section FormatFacts.
Variable args : list pyobj.
Variable kwargs : gmap string pyobj.

Abbreviation step := (format_step args kwargs).
Abbreviation loop := (format_loop args kwargs).

(** The body of the loop, by kind of tuple. *)
Lemma format_step_unfold (st : format_state) (it : parse_item) :
  step st it =
  if truthy_opt (spec it) then Raise (ValueError NoFormatSpec)
  else if truthy_opt (conv it) then Raise (ValueError NoFormatConversion)
  else
    let rv' := rv st ++ (PyNode <$> literal it) in
    match name it with
    | None => Ok (State rv' (autonum st))
    | Some nm =>
        match marker_of nm with
        | ManualNumbered index =>
            if autonum_truthy (autonum st)
            then Raise (ValueError AutoToManual)
            else a ← tuple_getitem args index; Ok (State (rv' ++ [a]) None)
        | AutoNumbered =>
            match autonum st with
            | None => Raise (ValueError ManualToAuto)
            | Some n =>
                a ← tuple_getitem args n;
                Ok (State (rv' ++ [a]) (Some (S n)))
            end
        | Named key =>
            a ← dict_getitem kwargs key;
            Ok (State (rv' ++ [a]) (autonum st))
        end
    end.
Proof.
  unfold format_step, marker_of, literal.
  destruct (truthy_opt (spec it)); [reflexivity|].
  destruct (truthy_opt (conv it)); [reflexivity|].
  destruct (truthy (pre it)); simpl; rewrite ?(right_id_L [] (++));
    destruct (name it) as [nm|]; try reflexivity;
    destruct (isdigit nm); try reflexivity;
    destruct (truthy nm); reflexivity.
Qed.

Lemma format_step_plain (st : format_state) (it : parse_item) :
  plain it = true →
  step st it =
    let rv' := rv st ++ (PyNode <$> literal it) in
    match name it with
    | None => Ok (State rv' (autonum st))
    | Some nm =>
        match marker_of nm with
        | ManualNumbered index =>
            if autonum_truthy (autonum st)
            then Raise (ValueError AutoToManual)
            else a ← tuple_getitem args index; Ok (State (rv' ++ [a]) None)
        | AutoNumbered =>
            match autonum st with
            | None => Raise (ValueError ManualToAuto)
            | Some n =>
                a ← tuple_getitem args n;
                Ok (State (rv' ++ [a]) (Some (S n)))
            end
        | Named key =>
            a ← dict_getitem kwargs key;
            Ok (State (rv' ++ [a]) (autonum st))
        end
    end.
Proof.
  unfold plain. intros [Hs Hc]%andb_true_iff.
  apply negb_true_iff in Hs, Hc.
  by rewrite format_step_unfold, Hs, Hc.
Qed.

(** A tuple with a format specification or a conversion is rejected. *)
Lemma format_step_not_plain (st : format_state) (it : parse_item) :
  plain it = false →
  ∃ w, step st it = Raise (ValueError w) ∧
       (w = NoFormatSpec ∨ w = NoFormatConversion).
Proof.
  unfold plain. intros H. rewrite format_step_unfold.
  destruct (truthy_opt (spec it)); [eauto|].
  destruct (truthy_opt (conv it)); [eauto|discriminate].
Qed.

Lemma format_step_Ok_plain (st st' : format_state) (it : parse_item) :
  step st it = Ok st' → plain it = true.
Proof.
  intros H. destruct (plain it) eqn:E; [done|].
  destruct (format_step_not_plain st it E) as (w & Hw & _). congruence.
Qed.

Lemma format_loop_cons it its st :
  loop (it :: its) st = st' ← step st it; loop its st'.
Proof. reflexivity. Qed.

Lemma format_loop_app its1 its2 st :
  loop (its1 ++ its2) st = st' ← loop its1 st; loop its2 st'.
Proof.
  revert st. induction its1 as [|it its1 IH]; intros st; [reflexivity|].
  simpl. destruct (format_step args kwargs st it); simpl; [apply IH|done].
Qed.

End FormatFacts.

Lemma tuple_getitem_Ok (args : list pyobj) (i : nat) (a : pyobj) :
  tuple_getitem args i = Ok a ↔ args !! i = Some a.
Proof. unfold tuple_getitem. destruct (args !! i); split; congruence. Qed.

Lemma dict_getitem_Ok (kwargs : gmap string pyobj) (key : string) (a : pyobj) :
  dict_getitem kwargs key = Ok a ↔ kwargs !! key = Some a.
Proof. unfold dict_getitem. destruct (kwargs !! key); split; congruence. Qed.

Lemma autonum_truthy_mode (autonum : option nat) :
  autonum_truthy autonum = true ↔ mode_of autonum = Auto.
Proof. destruct autonum as [[|n]|]; simpl; split; congruence. Qed.

Section FormatModes.
Variable args : list pyobj.
Variable kwargs : gmap string pyobj.

Abbreviation step := (format_step args kwargs).
Abbreviation loop := (format_loop args kwargs).

Lemma format_step_Ok_inv st it st' :
  step st it = Ok st' → plain it = true ∧ step_done args kwargs st it st'.
Proof.
  intros H. pose proof (format_step_Ok_plain _ _ _ _ _ H) as Hp.
  split; [done|].
  rewrite (format_step_plain _ _ _ _ Hp) in H. cbv zeta in H.
  destruct (name it) as [nm|] eqn:Hname.
  - destruct (marker_of nm) as [|index|key] eqn:Hm.
    + destruct (autonum st) as [n|] eqn:Ha; [|discriminate].
      apply bind_inv_Ok in H as (a & Hget%tuple_getitem_Ok & [= <-]).
      rewrite <- (assoc_L (++)). by eapply done_auto.
    + destruct (autonum_truthy (autonum st)) eqn:Ha; [discriminate|].
      apply bind_inv_Ok in H as (a & Hget%tuple_getitem_Ok & [= <-]).
      rewrite <- (assoc_L (++)). eapply done_manual; try done.
      intros Hauto%autonum_truthy_mode. congruence.
    + apply bind_inv_Ok in H as (a & Hget%dict_getitem_Ok & [= <-]).
      rewrite <- (assoc_L (++)). by eapply done_named.
  - injection H as <-. by apply done_text.
Qed.

Lemma format_step_done st it st' :
  plain it = true → step_done args kwargs st it st' → step st it = Ok st'.
Proof.
  intros Hp Hd. rewrite (format_step_plain _ _ _ _ Hp). cbv zeta.
  destruct Hd as [Hn | nm n a Hn Hm Ha Hget | nm index a Hn Hm Ha Hget
                 | nm key a Hn Hm Hget]; rewrite Hn; try rewrite Hm.
  - reflexivity.
  - rewrite Ha. apply tuple_getitem_Ok in Hget as ->. simpl.
    by rewrite (assoc_L (++)).
  - destruct (autonum_truthy (autonum st)) eqn:E.
    { by apply autonum_truthy_mode in E. }
    apply tuple_getitem_Ok in Hget as ->. simpl. by rewrite (assoc_L (++)).
  - apply dict_getitem_Ok in Hget as ->. simpl. by rewrite (assoc_L (++)).
Qed.

(** The flag after a turn of the loop: an auto-numbered marker sets it to
    [Auto], a manual-numbered one to [Manual], anything else keeps it. *)
Lemma format_step_mode st it st' :
  step st it = Ok st' →
  match name it with
  | None => autonum st' = autonum st
  | Some nm =>
      match marker_of nm with
      | AutoNumbered => mode_of (autonum st') = Auto
      | ManualNumbered _ => mode_of (autonum st') = Manual
      | Named _ => autonum st' = autonum st
      end
  end.
Proof.
  intros [_ Hd]%format_step_Ok_inv.
  destruct Hd as [Hn | nm n a Hn Hm Ha Hget | nm index a Hn Hm Ha Hget
                 | nm key a Hn Hm Hget]; rewrite Hn; try rewrite Hm; done.
Qed.

(** Once set, the flag does not change any more. *)
Lemma format_step_mode_kept st it st' :
  step st it = Ok st' →
  mode_of (autonum st) ≠ Unset →
  mode_of (autonum st') = mode_of (autonum st).
Proof.
  intros [_ Hd]%format_step_Ok_inv Hset.
  destruct Hd as [Hn | nm n a Hn Hm Ha Hget | nm index a Hn Hm Ha Hget
                 | nm key a Hn Hm Hget]; simpl; try done.
  - rewrite Ha in Hset |- *. by destruct n.
  - destruct (autonum st) as [[|n]|]; simpl in *; done.
Qed.

Lemma format_loop_mode_kept its st st' :
  loop its st = Ok st' →
  mode_of (autonum st) ≠ Unset →
  mode_of (autonum st') = mode_of (autonum st).
Proof.
  revert st. induction its as [|it its IH]; intros st H Hset.
  - by injection H as <-.
  - rewrite format_loop_cons in H.
    apply bind_inv_Ok in H as (st1 & Hstep & Hloop).
    pose proof (format_step_mode_kept _ _ _ Hstep Hset) as Hk.
    rewrite <- Hk. apply IH; [done|]. by rewrite Hk.
Qed.

(** In mode [Auto] a manual-numbered marker is rejected, in mode [Manual]
    an auto-numbered one. *)
Lemma format_step_switch st it nm :
  name it = Some nm →
  match marker_of nm with
  | ManualNumbered _ => mode_of (autonum st) = Auto
  | AutoNumbered => mode_of (autonum st) = Manual
  | Named _ => False
  end →
  ∃ w, step st it = Raise (ValueError w) ∧
       (plain it = true →
        w = match marker_of nm with
            | ManualNumbered _ => AutoToManual
            | _ => ManualToAuto
            end).
Proof.
  intros Hn Hmode. destruct (plain it) eqn:Hp.
  - rewrite (format_step_plain _ _ _ _ Hp). cbv zeta. rewrite Hn.
    destruct (marker_of nm) as [|index|key]; [| |done].
    + destruct (autonum st) as [[|n]|]; try discriminate. eauto.
    + apply autonum_truthy_mode in Hmode as ->. eauto.
  - destruct (format_step_not_plain args kwargs st it Hp) as (w & -> & _).
    exists w. split; [done|discriminate].
Qed.

End FormatModes.

(** The auto-numbered marker is the empty one. *)
Lemma marker_of_auto (nm : string) : marker_of nm = AutoNumbered ↔ nm = "".
Proof.
  unfold marker_of. split.
  - destruct (isdigit nm); [discriminate|].
    destruct nm; [done|discriminate].
  - by intros ->.
Qed.

Lemma marker_of_manual (nm : string) (index : nat) :
  marker_of nm = ManualNumbered index ↔ isdigit nm = true ∧ index = int nm.
Proof.
  unfold marker_of. split.
  - destruct (isdigit nm); [by intros [= <-]|].
    destruct (truthy nm); discriminate.
  - by intros [-> ->].
Qed.

(** ** [SQL.format]: the numbering modes *)

(** C1. The loop of [format] is a state machine over the mode flag
    ([mode_of] of the variable [autonum]): a processed auto-numbered marker
    sets the flag to [Auto] and a processed manual-numbered marker to
    [Manual]; in mode [Auto] every manual-numbered marker raises a
    [ValueError], and in mode [Manual] every auto-numbered marker does; a
    named marker never changes the flag and is accepted in every mode.  So for
    every template, once a marker of one numbering kind has been processed,
    [format] raises, and at the first later marker of the other kind that it
    reaches the exception is the [ValueError] of the switch. *)
Theorem numbering_mode_state_machine :
  ∀ (args : list pyobj) (kwargs : gmap string pyobj),
    (∀ st it st',
       format_step args kwargs st it = Ok st' →
       match marker_kind it with
       | Some AutoNumbered => mode_of (autonum st') = Auto
       | Some (ManualNumbered _) => mode_of (autonum st') = Manual
       | Some (Named _) | None => autonum st' = autonum st
       end) ∧
    (∀ st it index,
       mode_of (autonum st) = Auto →
       marker_kind it = Some (ManualNumbered index) →
       ∃ w, format_step args kwargs st it = Raise (ValueError w) ∧
            (plain it = true → w = AutoToManual)) ∧
    (∀ st it,
       mode_of (autonum st) = Manual →
       marker_kind it = Some AutoNumbered →
       ∃ w, format_step args kwargs st it = Raise (ValueError w) ∧
            (plain it = true → w = ManualToAuto)) ∧
    (∀ st it key a,
       plain it = true → marker_kind it = Some (Named key) →
       kwargs !! key = Some a →
       format_step args kwargs st it
       = Ok (State (rv st ++ (PyNode <$> literal it) ++ [a]) (autonum st))) ∧
    (∀ (parse : string → parsed) (t : string) before a between b after st,
       items (parse t) = before ++ a :: between ++ b :: after →
       format_loop args kwargs (before ++ [a]) format_init = Ok st →
       (marker_kind a = Some AutoNumbered ∧
        (∃ index, marker_kind b = Some (ManualNumbered index))) ∨
       ((∃ index, marker_kind a = Some (ManualNumbered index)) ∧
        marker_kind b = Some AutoNumbered) →
       ∃ e, SQL_format args kwargs parse t = Raise e ∧
            ∀ st2, format_loop args kwargs between st = Ok st2 →
                   ∃ w, e = ValueError w ∧
                        format_step args kwargs st2 b = Raise (ValueError w)).
Proof.
  intros args kwargs. split; [|split; [|split; [|split]]].
  - intros st it st' H. apply format_step_mode in H.
    unfold marker_kind. destruct (name it) as [nm|]; simpl; [|done].
    by destruct (marker_of nm).
  - intros st it index Hmode Hk. unfold marker_kind in Hk.
    destruct (name it) as [nm|] eqn:Hn; [|discriminate].
    injection Hk as Hk.
    destruct (format_step_switch args kwargs st it nm Hn) as (w & Hw & Hp).
    { by rewrite Hk. }
    exists w. split; [done|]. intros Hplain. rewrite (Hp Hplain). by rewrite Hk.
  - intros st it Hmode Hk. unfold marker_kind in Hk.
    destruct (name it) as [nm|] eqn:Hn; [|discriminate].
    injection Hk as Hk.
    destruct (format_step_switch args kwargs st it nm Hn) as (w & Hw & Hp).
    { by rewrite Hk. }
    exists w. split; [done|]. intros Hplain. rewrite (Hp Hplain). by rewrite Hk.
  - intros st it key a Hp Hk Hget. unfold marker_kind in Hk.
    destruct (name it) as [nm|] eqn:Hn; [|discriminate].
    injection Hk as Hk.
    apply format_step_done; [done|]. by eapply done_named.
  - intros parse t before a between b after st Hitems Ha Hkinds.
    assert (Hmode : ∃ nb,
      name b = Some nb ∧
      match marker_of nb with
      | ManualNumbered _ => mode_of (autonum st) = Auto
      | AutoNumbered => mode_of (autonum st) = Manual
      | Named _ => False
      end).
    { rewrite format_loop_app in Ha.
      apply bind_inv_Ok in Ha as (st0 & _ & Ha).
      rewrite format_loop_cons in Ha.
      apply bind_inv_Ok in Ha as (st1 & Ha & [= ->]).
      apply format_step_mode in Ha. unfold marker_kind in Hkinds.
      destruct (name a) as [na|]; destruct (name b) as [nb|]; simpl in Hkinds;
        try (destruct Hkinds as [[? [? ?]]|[[? ?] ?]]; discriminate).
      exists nb. split; [done|].
      destruct Hkinds as [[[= Hka] [i [= Hkb]]]|[[i [= Hka]] [= Hkb]]];
        rewrite Hka in Ha; by rewrite Hkb. }
    destruct Hmode as (nb & Hnb & Hmode).
    assert (Hset : mode_of (autonum st) ≠ Unset).
    { destruct (marker_of nb); [by rewrite Hmode|by rewrite Hmode|done]. }
    unfold SQL_format. cbv zeta. rewrite Hitems.
    replace (before ++ a :: between ++ b :: after)
      with ((before ++ [a]) ++ between ++ b :: after)
      by (by rewrite <- (assoc_L (++))).
    rewrite format_loop_app, Ha, bind_Ok, format_loop_app.
    destruct (format_loop args kwargs between st) as [st2|e] eqn:Hbetween.
    + rewrite bind_Ok, format_loop_cons.
      pose proof (format_loop_mode_kept _ _ _ _ _ Hbetween Hset) as Hkept.
      destruct (format_step_switch args kwargs st2 b nb Hnb) as (w & Hw & _).
      { rewrite Hkept. exact Hmode. }
      rewrite Hw. exists (ValueError w). split; [reflexivity|].
      intros st2' [= <-]. eauto.
    + exists e. split; [reflexivity|]. intros st2 Hst2. discriminate.
Qed.

Lemma numbering_mode_state_machine_witness :
  (∃ w, format_step [PyNode (SQL "x")] ∅
          (State [PyNode (SQL "x")] (Some 1%nat))
          (Item " " (Some "0") (Some "") None) = Raise (ValueError w) ∧
        w = AutoToManual) ∧
  (∃ e, SQL_format [PyNode (SQL "x")] ∅ Formatter_parse "{} {0}" = Raise e ∧
        e = ValueError AutoToManual).
Proof.
  destruct (numbering_mode_state_machine [PyNode (SQL "x")] ∅)
    as (_ & Hauto & _ & _ & Htemplate).
  split.
  - destruct (Hauto (State [PyNode (SQL "x")] (Some 1%nat))
                (Item " " (Some "0") (Some "") None) 0%nat
                eq_refl eq_refl) as (w & Hw & Hplain).
    exists w. split; [exact Hw | exact (Hplain eq_refl)].
  - destruct (Htemplate Formatter_parse "{} {0}" []
                (Item "" (Some "") (Some "") None) []
                (Item " " (Some "0") (Some "") None) []
                (State [PyNode (SQL "x")] (Some 1%nat))
                eq_refl eq_refl
                (or_introl (conj eq_refl (ex_intro _ 0%nat eq_refl))))
      as (e & He & Hswitch).
    exists e. split; [exact He|].
    destruct (Hswitch _ eq_refl) as (w & -> & Hw).
    injection Hw as <-. reflexivity.
Defined.

(** ** [SQL.format]: the children of the result *)

Section FormatChildren.
Variable args : list pyobj.
Variable kwargs : gmap string pyobj.

Lemma agrees_Some m next n : agrees m next (Some n) → n = next.
Proof. intros [_ H]. by apply H. Qed.

Lemma format_loop_complete m next its l :
  interleaved args kwargs m next its l →
  ∀ st, agrees m next (autonum st) →
        ∃ st', format_loop args kwargs its st = Ok st' ∧ rv st' = rv st ++ l.
Proof.
  induction 1 as [m next
                 | m next it its l Hp Hn _ IH
                 | m next it its nm a l Hp Hn Hm Hmode Hget _ IH
                 | m next it its nm index a l Hp Hn Hm Hmode Hget _ IH
                 | m next it its nm key a l Hp Hn Hm Hget _ IH];
    intros st Hagree.
  - exists st. by rewrite (right_id_L [] (++)).
  - rewrite format_loop_cons.
    rewrite (format_step_done args kwargs st it _ Hp (done_text _ _ _ _ Hn)).
    rewrite bind_Ok.
    destruct (IH (State (rv st ++ (PyNode <$> literal it)) (autonum st))
                Hagree) as (st' & Hloop & Hrv).
    exists st'. split; [done|]. rewrite Hrv. simpl.
    by rewrite <- (assoc_L (++)).
  - assert (Ha : autonum st = Some next).
    { destruct Hagree as [Hmo Hnext]. destruct (autonum st) as [n|].
      - by rewrite (Hnext n eq_refl).
      - by destruct Hmode. }
    rewrite format_loop_cons.
    rewrite (format_step_done args kwargs st it _ Hp
               (done_auto _ _ _ _ nm next a Hn Hm Ha Hget)).
    rewrite bind_Ok.
    destruct (IH (State (rv st ++ (PyNode <$> literal it) ++ [a])
                    (Some (S next)))) as (st' & Hloop & Hrv).
    { split; [done|]. by intros n [= <-]. }
    exists st'. split; [done|]. rewrite Hrv. simpl.
    by rewrite <- !(assoc_L (++)).
  - assert (Ha : mode_of (autonum st) ≠ Auto).
    { destruct Hagree as [Hmo _]. by rewrite Hmo. }
    rewrite format_loop_cons.
    rewrite (format_step_done args kwargs st it _ Hp
               (done_manual _ _ _ _ nm index a Hn Hm Ha Hget)).
    rewrite bind_Ok.
    destruct (IH (State (rv st ++ (PyNode <$> literal it) ++ [a]) None))
      as (st' & Hloop & Hrv).
    { split; [done|]. intros n. discriminate. }
    exists st'. split; [done|]. rewrite Hrv. simpl.
    by rewrite <- !(assoc_L (++)).
  - rewrite format_loop_cons.
    rewrite (format_step_done args kwargs st it _ Hp
               (done_named _ _ _ _ nm key a Hn Hm Hget)).
    rewrite bind_Ok.
    destruct (IH (State (rv st ++ (PyNode <$> literal it) ++ [a])
                    (autonum st)) Hagree) as (st' & Hloop & Hrv).
    exists st'. split; [done|]. rewrite Hrv. simpl.
    by rewrite <- !(assoc_L (++)).
Qed.

Lemma format_loop_sound its :
  ∀ st st', format_loop args kwargs its st = Ok st' →
    ∃ l, rv st' = rv st ++ l ∧
         ∀ m next, agrees m next (autonum st) →
                   interleaved args kwargs m next its l.
Proof.
  induction its as [|it its IH]; intros st st' H.
  - injection H as <-. exists []. split.
    + by rewrite (right_id_L [] (++)).
    + intros. constructor.
  - rewrite format_loop_cons in H.
    apply bind_inv_Ok in H as (st1 & Hstep & Hloop).
    apply format_step_Ok_inv in Hstep as [Hp Hd].
    destruct (IH _ _ Hloop) as (l & Hrv & Hl). clear IH Hloop.
    destruct Hd as [Hn | nm n a Hn Hm Ha Hget | nm index a Hn Hm Ha Hget
                   | nm key a Hn Hm Hget]; simpl in Hrv, Hl.
    + exists ((PyNode <$> literal it) ++ l). split.
      * by rewrite Hrv, <- (assoc_L (++)).
      * intros m next Hagree. apply interleaved_text; auto.
    + exists ((PyNode <$> literal it) ++ a :: l). split.
      * rewrite Hrv, <- !(assoc_L (++)). reflexivity.
      * intros m next Hagree. rewrite Ha in Hagree.
        pose proof (agrees_Some _ _ _ Hagree) as <-.
        eapply interleaved_auto; eauto.
        -- destruct Hagree as [<- _]. by destruct n.
        -- apply Hl. split; [done|]. by intros ? [= <-].
    + exists ((PyNode <$> literal it) ++ a :: l). split.
      * rewrite Hrv, <- !(assoc_L (++)). reflexivity.
      * intros m next Hagree.
        eapply interleaved_manual; eauto.
        -- destruct Hagree as [<- _]. done.
        -- apply Hl. split; [done|]. intros ?. discriminate.
    + exists ((PyNode <$> literal it) ++ a :: l). split.
      * rewrite Hrv, <- !(assoc_L (++)). reflexivity.
      * intros m next Hagree. eapply interleaved_named; eauto.
Qed.

End FormatChildren.

(** *** The placeholders, read independently of the code *)







(** *** Escaped braces in the parser *)












(** ** [SQL.format]: missing arguments *)

(** C7, as the code has it.  A marker without format specification or
    conversion that the numbering mode admits, and whose argument is missing,
    raises a lookup error: [IndexError] for an auto-numbered marker whose
    next index, or a manual-numbered marker whose index, is beyond the
    positional arguments, [KeyError] for a named marker whose name is not
    among the keyword arguments.  Whatever a marker raises, [format] raises:
    nothing is caught.  In particular ["{} {}"] formatted with a single
    positional argument raises [IndexError]. *)
Theorem missing_argument_raises_lookup_error :
  ∀ (args : list pyobj) (kwargs : gmap string pyobj),
    (∀ st it,
       plain it = true →
       match marker_kind it with
       | Some AutoNumbered =>
           ∀ n, autonum st = Some n → args !! n = None →
                format_step args kwargs st it = Raise IndexError
       | Some (ManualNumbered index) =>
           mode_of (autonum st) ≠ Auto → args !! index = None →
           format_step args kwargs st it = Raise IndexError
       | Some (Named key) =>
           kwargs !! key = None →
           format_step args kwargs st it = Raise (KeyError key)
       | None => True
       end) ∧
    (∀ (parse : string → parsed) (t : string) before it after st e,
       items (parse t) = before ++ it :: after →
       format_loop args kwargs before format_init = Ok st →
       format_step args kwargs st it = Raise e →
       SQL_format args kwargs parse t = Raise e) ∧
    (∀ a : pyobj,
       SQL_format [a] kwargs Formatter_parse "{} {}" = Raise IndexError ∧
       is_LookupError IndexError = true).
Proof.
  intros args kwargs. split; [|split].
  - intros st it Hp. rewrite (format_step_plain _ _ _ _ Hp). cbv zeta.
    unfold marker_kind. destruct (name it) as [nm|]; simpl; [|done].
    destruct (marker_of nm) as [|index|key].
    + intros n -> Hget. unfold tuple_getitem. by rewrite Hget.
    + intros Hmode Hget.
      destruct (autonum_truthy (autonum st)) eqn:E.
      { by apply autonum_truthy_mode in E. }
      unfold tuple_getitem. by rewrite Hget.
    + intros Hget. unfold dict_getitem. by rewrite Hget.
  - intros parse t before it after st e Hitems Hloop Hstep.
    unfold SQL_format. cbv zeta.
    by rewrite Hitems, format_loop_app, Hloop, bind_Ok, format_loop_cons, Hstep.
  - intros a. split; reflexivity.
Qed.

Lemma missing_argument_raises_lookup_error_witness :
  format_step [PyNode (SQL "x")] ∅ (State [PyNode (SQL "x")] (Some 1%nat))
    (Item " " (Some "") (Some "") None) = Raise IndexError ∧
  format_step [PyNode (SQL "x")] ∅ (State [] (Some 0%nat))
    (Item "" (Some "3") (Some "") None) = Raise IndexError ∧
  format_step [PyNode (SQL "x")] ∅ (State [PyNode (SQL "x")] (Some 1%nat))
    (Item "" (Some "tbl") (Some "") None) = Raise (KeyError "tbl") ∧
  SQL_format [PyNode (SQL "x")] ∅ Formatter_parse "{} {tbl}"
  = Raise (KeyError "tbl").
Proof.
  destruct (missing_argument_raises_lookup_error [PyNode (SQL "x")] ∅)
    as (Hstep & Hsurface & _).
  split; [|split; [|split]].
  - exact (Hstep (State [PyNode (SQL "x")] (Some 1%nat))
             (Item " " (Some "") (Some "") None) eq_refl 1%nat eq_refl eq_refl).
  - apply (Hstep (State [] (Some 0%nat))
             (Item "" (Some "3") (Some "") None) eq_refl);
      [discriminate | reflexivity].
  - exact (Hstep (State [PyNode (SQL "x")] (Some 1%nat))
             (Item "" (Some "tbl") (Some "") None) eq_refl eq_refl).
  - apply (Hsurface Formatter_parse "{} {tbl}"
             [Item "" (Some "") (Some "") None]
             (Item " " (Some "tbl") (Some "") None) []
             (State [PyNode (SQL "x")] (Some 1%nat)));
      reflexivity.
Defined.

(** C7 as the claim words it fails where the numbering check comes first: in
    ["{}{7}"] formatted with one positional argument the marker [{7}] has no
    corresponding argument, and [format] raises the [ValueError] of the
    switch to manual numbering, which is not a lookup error. *)
Lemma switch_error_precedes_lookup :
  items (Formatter_parse "{}{7}")
  = [Item "" (Some "") (Some "") None; Item "" (Some "7") (Some "") None] ∧
  marker_kind (Item "" (Some "7") (Some "") None) = Some (ManualNumbered 7) ∧
  [PyNode (SQL "x")] !! 7%nat = None ∧
  SQL_format [PyNode (SQL "x")] ∅ Formatter_parse "{}{7}"
  = Raise (ValueError AutoToManual) ∧
  is_LookupError (ValueError AutoToManual) = false ∧
  ¬ (∀ (args : list pyobj) (kwargs : gmap string pyobj) (t : string)
       before it after index,
       items (Formatter_parse t) = before ++ it :: after →
       marker_kind it = Some (ManualNumbered index) →
       args !! index = None →
       ∃ e, SQL_format args kwargs Formatter_parse t = Raise e ∧
            is_LookupError e = true).
Proof.
  repeat (split; [reflexivity|]).
  intros H.
  destruct (H [PyNode (SQL "x")] ∅ "{}{7}"
              [Item "" (Some "") (Some "") None]
              (Item "" (Some "7") (Some "") None) [] 7%nat
              eq_refl eq_refl eq_refl) as (e & He & Hlookup).
  injection He as <-. discriminate Hlookup.
Qed.

(** * Further properties of the module *)

(** ** Induction on nodes *)

Lemma Composable_nested_ind (P : Composable → Prop) :
  (∀ l, Forall P l → P (Composed l)) →
  (∀ s, P (SQL s)) →
  (∀ s, P (Identifier s)) →
  (∀ v, P (Literal v)) →
  (∀ n, P (Placeholder n)) →
  ∀ c, P c.
Proof.
  intros HC HS HI HL HP. fix IH 1.
  intros [l|s|s|v|n]; [|apply HS|apply HI|apply HL|apply HP].
  apply HC. induction l as [|x l IHl]; constructor; [apply IH | exact IHl].
Qed.

(** ** [Composed.__init__] *)

Lemma Composed_init_forallb (seq : list pyobj) :
  Composed_init seq
  = if forallb is_node seq then Ok (Composed (nodes_of seq))
    else Raise (TypeError ComposedElement).
Proof.
  unfold Composed_init.
  assert (H : for_each (fun i => match i with
                                 | PyNode c => Ok c
                                 | _ => Raise (TypeError ComposedElement)
                                 end) seq
              = if forallb is_node seq then Ok (nodes_of seq)
                else Raise (TypeError ComposedElement)).
  { induction seq as [|i seq IH]; [reflexivity|].
    rewrite for_each_cons, IH. destruct i; try reflexivity.
    simpl. by destruct (forallb is_node seq). }
  rewrite H. by destruct (forallb is_node seq).
Qed.

Lemma nodes_of_nodes (l : list Composable) : nodes_of (PyNode <$> l) = l.
Proof.
  unfold nodes_of. induction l as [|c l IH]; simpl; [reflexivity|].
  f_equal. exact IH.
Qed.

Lemma forallb_is_node (seq : list pyobj) :
  forallb is_node seq = true ↔ ∃ l, seq = PyNode <$> l.
Proof.
  split.
  - induction seq as [|i seq IH]; [by exists []|].
    simpl. intros [Hi Hs]%andb_true_iff. destruct (IH Hs) as [l ->].
    destruct i; try discriminate. by exists (c :: l).
  - intros [l ->]. induction l as [|c l IH]; [reflexivity|].
    rewrite fmap_cons. simpl. exact IH.
Qed.

Lemma forallb_false_elem {A : Type} (f : A → bool) (l : list A) :
  forallb f l = false → ∃ x, x ∈ l ∧ f x = false.
Proof.
  induction l as [|x l IH]; [discriminate|]. simpl.
  destruct (f x) eqn:E; simpl.
  - intros (y & Hy & Hf)%IH. exists y. split; [by right | done].
  - intros _. exists x. split; [by left | done].
Qed.

Lemma Composed_init_Ok_iff (seq : list pyobj) (c : Composable) :
  Composed_init seq = Ok c ↔ ∃ l, seq = PyNode <$> l ∧ c = Composed l.
Proof.
  split; [apply Composed_init_inv|].
  intros (l & -> & ->). apply Composed_init_nodes.
Qed.

Lemma Composed_init_Raise_iff (seq : list pyobj) (e : exn) :
  Composed_init seq = Raise e ↔
  e = TypeError ComposedElement ∧ ∃ o, o ∈ seq ∧ is_node o = false.
Proof.
  rewrite Composed_init_forallb. destruct (forallb is_node seq) eqn:E.
  - split; [discriminate|]. intros (_ & o & Ho & Hno).
    rewrite forallb_forall in E. apply list_elem_of_In in Ho.
    rewrite (E o Ho) in Hno. discriminate.
  - split.
    + intros [= <-]. split; [done|]. by apply forallb_false_elem.
    + by intros [-> _].
Qed.

(** X1. [Composed(seq)] succeeds exactly when every element of [seq] is a
    [Composable], and then keeps the elements as they are and in their order;
    when some element is not, it raises the [TypeError] of the element
    check. *)
Theorem Composed_init_checks_elements (seq : list pyobj) :
  (∀ c, Composed_init seq = Ok c ↔ ∃ l, seq = PyNode <$> l ∧ c = Composed l) ∧
  (∀ e, Composed_init seq = Raise e ↔
        e = TypeError ComposedElement ∧ ∃ o, o ∈ seq ∧ is_node o = false).
Proof.
  split.
  - intros c. apply Composed_init_Ok_iff.
  - intros e. apply Composed_init_Raise_iff.
Qed.

Lemma Composed_init_checks_elements_witness :
  Composed_init [PyNode (SQL "a"); PyNode (Identifier "b")]
  = Ok (Composed [SQL "a"; Identifier "b"]) ∧
  Composed_init [PyNode (SQL "a"); PyInt 42]
  = Raise (TypeError ComposedElement).
Proof.
  split.
  - apply (proj1 (Composed_init_checks_elements _)).
    by exists [SQL "a"; Identifier "b"].
  - apply (proj2 (Composed_init_checks_elements _)).
    split; [done|]. exists (PyInt 42). split; [|done].
    apply list_elem_of_In. right. by left.
Defined.

(** ** [Composed.as_string] *)

Lemma for_each_app {A B : Type} (body : A → result B) (l1 l2 : list A) :
  for_each body (l1 ++ l2)
  = rv1 ← for_each body l1; rv2 ← for_each body l2; Ok (rv1 ++ rv2).
Proof.
  induction l1 as [|x l1 IH]; simpl.
  - by destruct (for_each body l2).
  - destruct (body x) as [y|e]; simpl; [|done]. rewrite IH.
    destruct (for_each body l1) as [rv1|e]; simpl; [|done].
    by destruct (for_each body l2).
Qed.

Lemma for_each_length {A B : Type} (body : A → result B) l rv :
  for_each body l = Ok rv → length rv = length l.
Proof.
  revert rv. induction l as [|x l IH]; intros rv H.
  - by injection H as <-.
  - rewrite for_each_cons in H.
    apply bind_inv_Ok in H as (y & _ & H).
    apply bind_inv_Ok in H as (rv' & Hrv' & [= <-]).
    simpl. f_equal. by apply IH.
Qed.

Lemma append_assoc_L (s1 s2 s3 : string) :
  (s1 +:+ s2) +:+ s3 = s1 +:+ (s2 +:+ s3).
Proof.
  induction s1 as [|c s1 IH]; [reflexivity|].
  by rewrite !append_String, IH.
Qed.

Lemma join_empty_app (rv1 rv2 : list string) :
  join_empty (rv1 ++ rv2) = join_empty rv1 +:+ join_empty rv2.
Proof.
  induction rv1 as [|s rv1 IH]; [reflexivity|].
  change ((s :: rv1) ++ rv2) with (s :: (rv1 ++ rv2)).
  by rewrite !join_empty_cons, IH, append_assoc_L.
Qed.

Section ComposedRendering.
Context {connection : Type}.
Variable quote_ident : string → context connection → result string.
Variable getquoted : pyobj → connection → result string.

Abbreviation render := (as_string quote_ident getquoted).

Lemma as_string_singleton x ctx : render (Composed [x]) ctx = render x ctx.
Proof.
  rewrite as_string_Composed, for_each_cons.
  destruct (render x ctx) as [s|e]; [|reflexivity].
  simpl. unfold join_empty. reflexivity.
Qed.

Lemma as_string_flat x ctx : render (Composed (flat x)) ctx = render x ctx.
Proof. destruct x; try apply as_string_singleton. reflexivity. Qed.

Lemma as_string_Composed_app l1 l2 ctx :
  render (Composed (l1 ++ l2)) ctx
  = (s1 ← render (Composed l1) ctx;
     s2 ← render (Composed l2) ctx;
     Ok (s1 +:+ s2)).
Proof.
  rewrite !as_string_Composed, for_each_app.
  destruct (for_each _ l1) as [rv1|e]; simpl; [|done].
  destruct (for_each _ l2) as [rv2|e]; simpl; [|done].
  by rewrite join_empty_app.
Qed.

(** X2. Rendering a [Composed] concatenates the renderings of its children:
    the empty one renders to the empty string, a single child renders as
    itself, and a sequence [l1 ++ l2] renders to the rendering of [l1]
    followed by that of [l2], the first exception ending the rendering. *)
Theorem as_string_Composed_concatenates (l1 l2 : list Composable)
    (x : Composable) (conn_or_curs : context connection) :
  render (Composed []) conn_or_curs = Ok "" ∧
  render (Composed [x]) conn_or_curs = render x conn_or_curs ∧
  render (Composed (l1 ++ l2)) conn_or_curs
  = (s1 ← render (Composed l1) conn_or_curs;
     s2 ← render (Composed l2) conn_or_curs;
     Ok (s1 +:+ s2)).
Proof.
  split; [reflexivity|]. split; [apply as_string_singleton|].
  apply as_string_Composed_app.
Qed.

(** X3. For all nodes [a] and [b], [a + b] renders to the rendering of [a]
    followed by the rendering of [b]; it raises what [a] raises, or else what
    [b] raises. *)
Theorem add_renders_concatenation (a b : Composable) :
  ∃ c, add a (PyNode b) = Ok c ∧
       ∀ conn_or_curs,
         render c conn_or_curs
         = (s1 ← render a conn_or_curs;
            s2 ← render b conn_or_curs;
            Ok (s1 +:+ s2)).
Proof.
  exists (Composed (flat a ++ flat b)). split; [apply add_flat|].
  intros ctx. by rewrite as_string_Composed_app, !as_string_flat.
Qed.

(** X4. Rendering a [Composed] raises [e] exactly when some child raises [e]
    and every child before it renders: the exception of the first child that
    fails is the one that is raised. *)
Theorem as_string_Composed_first_failure (l : list Composable)
    (conn_or_curs : context connection) (e : exn) :
  render (Composed l) conn_or_curs = Raise e ↔
  ∃ i x, l !! i = Some x ∧ render x conn_or_curs = Raise e ∧
         ∀ j y, (j < i)%nat → l !! j = Some y →
                ∃ s, render y conn_or_curs = Ok s.
Proof.
  rewrite as_string_Composed.
  induction l as [|x l IH].
  - split; [discriminate|]. intros (i & y & Hi & _). by destruct i.
  - rewrite for_each_cons. destruct (render x conn_or_curs) as [s|e'] eqn:Hx.
    + rewrite bind_Ok.
      destruct (for_each (fun i => render i conn_or_curs) l) as [rv|e'] eqn:Hl.
      * split; [discriminate|]. intros ([|i] & y & Hi & Hy & Hbefore).
        -- injection Hi as <-. congruence.
        -- assert (H : ∃ i x, l !! i = Some x ∧
                     render x conn_or_curs = Raise e ∧
                     ∀ j y, (j < i)%nat → l !! j = Some y →
                            ∃ s, render y conn_or_curs = Ok s).
           { exists i, y. split; [done|]. split; [done|].
             intros j z Hj Hz. apply (Hbefore (S j) z); [lia|done]. }
           apply IH in H. discriminate H.
      * simpl in IH |- *. split.
        -- intros [= ->]. destruct (proj1 IH eq_refl) as (i & y & Hi & Hy & Hb).
           exists (S i), y. split; [done|]. split; [done|].
           intros [|j] z Hj Hz.
           ++ injection Hz as <-. eauto.
           ++ apply (Hb j z); [lia|done].
        -- intros ([|i] & y & Hi & Hy & Hbefore).
           ++ injection Hi as <-. congruence.
           ++ apply IH. exists i, y. split; [done|]. split; [done|].
              intros j z Hj Hz. apply (Hbefore (S j) z); [lia|done].
    + simpl. split.
      * intros [= ->]. exists 0%nat, x. split; [done|]. split; [done|]. lia.
      * intros ([|i] & y & Hi & Hy & Hbefore).
        -- injection Hi as <-. congruence.
        -- destruct (Hbefore 0%nat x) as [s Hs]; [lia|done|]. congruence.
Qed.

End ComposedRendering.

Lemma as_string_Composed_first_failure_witness :
  as_string (connection := unit) (fun s _ => Raise (External s))
    (fun _ _ => Ok "")
    (Composed [SQL "a"; Identifier "b"; Identifier "c"]) NeitherConnNorCurs
  = Raise (External "b").
Proof.
  apply as_string_Composed_first_failure.
  exists 1%nat, (Identifier "b"). split; [reflexivity|]. split; [reflexivity|].
  intros [|j] y Hj Hy; [|lia]. injection Hy as <-. by exists "a".
Defined.

(** ** [Composed.join] and [SQL.join] *)

Lemma interpose_short {A : Type} (sep : A) (l : list A) :
  (length l ≤ 1)%nat → interpose sep l = l.
Proof. destruct l as [|x [|y l]]; simpl; [done | done | lia]. Qed.

Lemma Composed_join_valid (_seq : list Composable) (joiner : pyobj) (s : string) :
  joiner = PyStr s ∨ joiner = PyNode (SQL s) →
  Composed_join _seq joiner = Ok (Composed (interpose (SQL s) _seq)).
Proof.
  intros Hj.
  assert (Hsep : Composed_join _seq joiner
                 = if (length _seq <=? 1)%nat then Ok (Composed _seq)
                   else match _seq with
                        | [] => Raise StopIteration
                        | first :: it =>
                            Ok (Composed (foldl (fun rv i => rv ++ [SQL s; i])
                                            [first] it))
                        end).
  { by destruct Hj as [-> | ->]. }
  rewrite Hsep. destruct (Nat.leb_spec (length _seq) 1) as [Hk|Hk].
  - by rewrite interpose_short.
  - destruct _seq as [|first it]; [simpl in Hk; lia|].
    by rewrite foldl_join, interpose_cons.
Qed.

(** X5. [Composed.join] succeeds exactly when the joiner is a string or an
    [SQL]; every other joiner, a [Composable] of another class included, is
    rejected with a [TypeError], whatever the receiver holds (an empty
    receiver too), and no other exception is ever raised. *)
Theorem Composed_join_checks_joiner (_seq : list Composable) (joiner : pyobj) :
  ((∃ s, joiner = PyStr s ∨ joiner = PyNode (SQL s)) →
   ∃ c, Composed_join _seq joiner = Ok c) ∧
  (¬ (∃ s, joiner = PyStr s ∨ joiner = PyNode (SQL s)) →
   Composed_join _seq joiner = Raise (TypeError JoinArgument)).
Proof.
  split.
  - intros [s Hs]. rewrite (Composed_join_valid _ _ s Hs). eauto.
  - intros Hno. destruct joiner as [| | |s|[| s | | |]]; try reflexivity;
      destruct Hno; exists s; auto.
Qed.

Lemma Composed_join_checks_joiner_witness :
  (∃ c, Composed_join [] (PyStr ", ") = Ok c) ∧
  Composed_join [] (PyNode (Identifier ", ")) = Raise (TypeError JoinArgument).
Proof.
  split.
  - apply (proj1 (Composed_join_checks_joiner [] (PyStr ", "))).
    exists ", ". by left.
  - apply (proj2 (Composed_join_checks_joiner [] (PyNode (Identifier ", ")))).
    intros [s [H|H]]; discriminate H.
Defined.

Lemma fmap_interpose {A B : Type} (f : A → B) (sep : A) (l : list A) :
  f <$> interpose sep l = interpose (f sep) (f <$> l).
Proof.
  destruct l as [|x l]; [reflexivity|].
  rewrite fmap_cons, !interpose_cons, fmap_cons. f_equal.
  induction l as [|y l IH]; simpl; [reflexivity|].
  do 2 f_equal. exact IH.
Qed.

Lemma SQL_join_interpose (_wrapped : string) (seq : join_arg) :
  SQL_join _wrapped seq
  = Composed_init (interpose (PyNode (SQL _wrapped))
                     match seq with
                     | JoinComposed _seq => PyNode <$> _seq
                     | JoinIterable objects => objects
                     end).
Proof.
  unfold SQL_join. cbv zeta. f_equal.
  destruct (match seq with
            | JoinComposed _seq => PyNode <$> _seq
            | JoinIterable objects => objects
            end) as [|first it]; [reflexivity|].
  by rewrite foldl_join, interpose_cons.
Qed.

Lemma forallb_interpose {A : Type} (f : A → bool) (sep : A) (l : list A) :
  f sep = true → forallb f (interpose sep l) = forallb f l.
Proof.
  intros Hsep. destruct l as [|x l]; [reflexivity|]. rewrite interpose_cons.
  simpl. f_equal. induction l as [|y l IH]; [reflexivity|].
  simpl. by rewrite Hsep, IH.
Qed.

(** X6. [SQL(s).join(seq)] returns the elements of [seq] in order with the
    receiver between every adjacent pair: an empty sequence gives the empty
    [Composed], a sequence of [k > 0] nodes a [Composed] of [2k - 1]
    elements.  It raises the [TypeError] of [Composed] when, and only when,
    some element is not a [Composable]. *)
Theorem SQL_join_interposes (_wrapped : string) (objects : list pyobj) :
  SQL_join _wrapped (JoinIterable []) = Ok (Composed []) ∧
  (∀ l, objects = PyNode <$> l →
     SQL_join _wrapped (JoinIterable objects)
     = Ok (Composed (interpose (SQL _wrapped) l)) ∧
     (l ≠ [] →
      length (interpose (SQL _wrapped) l) = (2 * length l - 1)%nat) ∧
     (∀ i, interpose (SQL _wrapped) l !! (2 * i)%nat = l !! i) ∧
     (∀ i, (S i < length l)%nat →
           interpose (SQL _wrapped) l !! (2 * i + 1)%nat
           = Some (SQL _wrapped))) ∧
  ((∃ o, o ∈ objects ∧ is_node o = false) →
   SQL_join _wrapped (JoinIterable objects)
   = Raise (TypeError ComposedElement)).
Proof.
  split; [reflexivity|]. split.
  - intros l ->. split; [|split; [|split]].
    + rewrite SQL_join_interpose.
      rewrite <- fmap_interpose. apply Composed_init_nodes.
    + destruct l as [|x l]; [done|]. intros _. apply interpose_length.
    + intros i. apply interpose_lookup_even.
    + intros i Hi. by apply interpose_lookup_odd.
  - intros (o & Ho & Hno). rewrite SQL_join_interpose, Composed_init_forallb.
    rewrite forallb_interpose by reflexivity.
    destruct (forallb is_node objects) eqn:E; [|reflexivity].
    rewrite forallb_forall in E. apply list_elem_of_In in Ho.
    rewrite (E o Ho) in Hno. discriminate.
Qed.

Lemma SQL_join_interposes_witness :
  SQL_join ", " (JoinIterable [PyNode (Identifier "foo");
                               PyNode (Identifier "bar")])
  = Ok (Composed [Identifier "foo"; SQL ", "; Identifier "bar"]) ∧
  SQL_join ", " (JoinIterable [PyNode (Identifier "foo"); PyStr "bar"])
  = Raise (TypeError ComposedElement).
Proof.
  split.
  - destruct (SQL_join_interposes ", " [PyNode (Identifier "foo");
                                        PyNode (Identifier "bar")])
      as (_ & H & _).
    destruct (H [Identifier "foo"; Identifier "bar"] eq_refl) as [Hjoin _].
    exact Hjoin.
  - destruct (SQL_join_interposes ", " [PyNode (Identifier "foo");
                                        PyStr "bar"]) as (_ & _ & H).
    apply H. exists (PyStr "bar"). split; [|done].
    apply list_elem_of_In. right. by left.
Defined.

(** X7. The two joins agree: for every [Composed] (of sequence [l]) and
    text [s], [SQL(s).join(Composed(l))], [Composed(l).join(SQL(s))] and
    [Composed(l).join(s)] return the same [Composed], as does [SQL(s).join]
    on any iterable that yields the elements of [l]. *)
Theorem SQL_join_agrees_with_Composed_join (s : string) (l : list Composable) :
  SQL_join s (JoinComposed l) = Composed_join l (PyNode (SQL s)) ∧
  SQL_join s (JoinComposed l) = Composed_join l (PyStr s) ∧
  SQL_join s (JoinComposed l) = SQL_join s (JoinIterable (PyNode <$> l)).
Proof.
  rewrite (Composed_join_valid l (PyNode (SQL s)) s) by auto.
  rewrite (Composed_join_valid l (PyStr s) s) by auto.
  rewrite !SQL_join_interpose, <- fmap_interpose, Composed_init_nodes.
  done.
Qed.

Section JoinRendering.
Context {connection : Type}.
Variable quote_ident : string → context connection → result string.
Variable getquoted : pyobj → connection → result string.

Abbreviation render := (as_string quote_ident getquoted).

Lemma for_each_interpose (s : string) (l : list Composable) ctx :
  (rv ← for_each (fun i => render i ctx) (interpose (SQL s) l);
   Ok (join_empty rv))
  = (rv ← for_each (fun i => render i ctx) l; Ok (String.concat s rv)).
Proof.
  induction l as [|x l IH]; [reflexivity|].
  destruct l as [|y l].
  - simpl. by destruct (render x ctx).
  - change (interpose (SQL s) (x :: y :: l))
      with (x :: SQL s :: interpose (SQL s) (y :: l)).
    rewrite (for_each_cons _ x (y :: l)), (for_each_cons _ x (SQL s :: _)).
    rewrite (for_each_cons _ (SQL s)).
    destruct (render x ctx) as [sx|e]; [|reflexivity].
    rewrite !bind_Ok. change (render (SQL s) ctx) with (Ok s : result string).
    rewrite bind_Ok.
    destruct (for_each (fun i => render i ctx) (y :: l)) as [rv2|e2] eqn:H2;
      destruct (for_each (fun i => render i ctx) (interpose (SQL s) (y :: l)))
        as [rv1|e1]; simpl in IH |- *; try congruence.
    injection IH as IH.
    apply for_each_length in H2. destruct rv2 as [|r2 rv2]; [discriminate|].
    f_equal. rewrite !join_empty_cons, IH. reflexivity.
Qed.

(** X8. The result of a join renders as Python's [s.join(...)] of the
    renderings: for every [Composed] (of sequence [l]) and text [s],
    [Composed(l).join(s)] and [SQL(s).join(Composed(l))] succeed, and in every
    context they render to the renderings of the children of [l], in order,
    with [s] between them, or raise what the first failing child raises. *)
Theorem join_renders_separated (s : string) (l : list Composable) :
  ∃ c, Composed_join l (PyStr s) = Ok c ∧
       SQL_join s (JoinComposed l) = Ok c ∧
       ∀ conn_or_curs,
         render c conn_or_curs
         = (rv ← for_each (fun i => render i conn_or_curs) l;
            Ok (String.concat s rv)).
Proof.
  exists (Composed (interpose (SQL s) l)). split; [|split].
  - apply Composed_join_valid. by left.
  - rewrite SQL_join_interpose, <- fmap_interpose. apply Composed_init_nodes.
  - intros ctx. rewrite as_string_Composed. apply for_each_interpose.
Qed.

(** X9. Joining repetitions: for every node [x] that renders to [sx], every
    natural number [n] (an index-sized integer) and text [s],
    [SQL(s).join(x * n)] renders to [n] copies of [sx] separated by [s]. *)
Theorem join_of_repetition_renders (s sx : string) (x : Composable) (n : nat)
    (conn_or_curs : context connection) :
  (Z.of_nat n ≤ maxsize)%Z →
  render x conn_or_curs = Ok sx →
  ∃ xs c, __mul__ x (PyInt (Z.of_nat n)) = Ok (Composed xs) ∧
          SQL_join s (JoinComposed xs) = Ok c ∧
          render c conn_or_curs = Ok (String.concat s (replicate n sx)).
Proof.
  intros Hn Hx.
  exists (replicate n x), (Composed (interpose (SQL s) (replicate n x))).
  split; [|split].
  - unfold __mul__. rewrite list_mul_fits by (pose proof maxsize_nonneg; lia).
    by rewrite Nat2Z.id.
  - rewrite SQL_join_interpose, <- fmap_interpose. apply Composed_init_nodes.
  - rewrite as_string_Composed, for_each_interpose.
    by rewrite (for_each_replicate_Ok _ x sx n Hx).
Qed.

End JoinRendering.

Lemma join_of_repetition_renders_witness :
  ∃ xs c, __mul__ (Placeholder None) (PyInt 3) = Ok (Composed xs) ∧
          SQL_join ", " (JoinComposed xs) = Ok c ∧
          as_string (connection := unit) (fun s _ => Ok s) (fun _ _ => Ok "")
            c NeitherConnNorCurs = Ok "%s, %s, %s".
Proof.
  apply (join_of_repetition_renders (connection := unit)
           (fun s _ => Ok s) (fun _ _ => Ok "")
           ", " "%s" (Placeholder None) 3 NeitherConnNorCurs).
  - unfold maxsize. lia.
  - reflexivity.
Defined.

(** ** [SQL.format]: further properties *)

Lemma SQL_format_Ok args kwargs (parse : string → parsed) t c :
  SQL_format args kwargs parse t = Ok c ↔
  ∃ l, c = Composed l ∧ failure (parse t) = None ∧
       interleaved args kwargs Unset 0 (items (parse t)) (PyNode <$> l).
Proof.
  unfold SQL_format. cbv zeta. split.
  - intros H. apply bind_inv_Ok in H as (st' & Hloop & H).
    destruct (failure (parse t)) as [msg|]; [discriminate|].
    apply Composed_init_inv in H as (l & Hrv & ->).
    exists l. split; [done|]. split; [done|].
    destruct (format_loop_sound args kwargs _ _ _ Hloop) as (l' & Hrv' & Hl').
    simpl in Hrv'. rewrite <- Hrv, Hrv'. apply Hl'.
    split; [done|]. by intros n [= <-].
  - intros (l & -> & Hfail & Hl).
    destruct (format_loop_complete args kwargs _ _ _ _ Hl format_init)
      as (st' & -> & Hrv).
    { split; [done|]. by intros n [= <-]. }
    rewrite bind_Ok, Hfail, Hrv. apply Composed_init_nodes.
Qed.

(** X10. A tuple of the template with a non-empty format specification or
    with a conversion makes [format] fail, whatever the arguments: when
    the tuples before it are processed, the exception is the [ValueError]
    of the specification, or else of the conversion, even where the marker's
    argument is missing or its numbering switches. *)
Theorem format_rejects_spec_and_conv :
  ∀ (args : list pyobj) (kwargs : gmap string pyobj)
    (parse : string → parsed) (t : string) before it after,
    items (parse t) = before ++ it :: after →
    plain it = false →
    (∃ e, SQL_format args kwargs parse t = Raise e) ∧
    (∀ st, format_loop args kwargs before format_init = Ok st →
           SQL_format args kwargs parse t
           = Raise (ValueError (if truthy_opt (spec it) then NoFormatSpec
                                else NoFormatConversion))).
Proof.
  intros args kwargs parse t before it after Hitems Hp.
  assert (Hstep : ∀ st, format_step args kwargs st it
                        = Raise (ValueError (if truthy_opt (spec it)
                                             then NoFormatSpec
                                             else NoFormatConversion))).
  { intros st. rewrite format_step_unfold. unfold plain in Hp.
    destruct (truthy_opt (spec it)); [done|].
    destruct (truthy_opt (conv it)); [done|discriminate]. }
  unfold SQL_format. cbv zeta.
  rewrite Hitems, format_loop_app.
  destruct (format_loop args kwargs before format_init) as [st|e].
  - rewrite bind_Ok, format_loop_cons, Hstep.
    split; [eauto|]. by intros st' [= <-].
  - split; [eauto|]. discriminate.
Qed.

Lemma format_rejects_spec_and_conv_witness :
  SQL_format [PyNode (SQL "x")] ∅ Formatter_parse "{0!r}"
  = Raise (ValueError NoFormatConversion) ∧
  SQL_format [] ∅ Formatter_parse "{}{7:>10}"
  = Raise IndexError ∧
  SQL_format [PyNode (SQL "x")] ∅ Formatter_parse "{}{7:>10}"
  = Raise (ValueError NoFormatSpec).
Proof.
  split; [|split].
  - apply (proj2 (format_rejects_spec_and_conv [PyNode (SQL "x")] ∅
                    Formatter_parse "{0!r}" []
                    (Item "" (Some "0") (Some "") (Some "r")) []
                    eq_refl eq_refl) format_init eq_refl).
  - destruct (proj1 (format_rejects_spec_and_conv [] ∅
                       Formatter_parse "{}{7:>10}"
                       [Item "" (Some "") (Some "") None]
                       (Item "" (Some "7") (Some ">10") None) []
                       eq_refl eq_refl)) as [e He].
    rewrite He. revert He. vm_compute. intros [= <-]. reflexivity.
  - apply (proj2 (format_rejects_spec_and_conv [PyNode (SQL "x")] ∅
                    Formatter_parse "{}{7:>10}"
                    [Item "" (Some "") (Some "") None]
                    (Item "" (Some "7") (Some ">10") None) []
                    eq_refl eq_refl)
             (State [PyNode (SQL "x")] (Some 1%nat)) eq_refl).
Defined.

Lemma interleaved_mono args kwargs more (kwargs' : gmap string pyobj) m next its l :
  kwargs ⊆ kwargs' →
  interleaved args kwargs m next its l →
  interleaved (args ++ more) kwargs' m next its l.
Proof.
  intros Hsub. induction 1.
  - constructor.
  - by apply interleaved_text.
  - eapply interleaved_auto; eauto. by apply lookup_app_l_Some.
  - eapply interleaved_manual; eauto. by apply lookup_app_l_Some.
  - eapply interleaved_named; eauto. by eapply lookup_weaken.
Qed.

(** X11. Arguments that no marker selects are ignored: when [format]
    succeeds, it returns the same [Composed] with further positional
    arguments appended and with further keyword arguments added, whatever
    these are (a [Composable] or not). *)
Theorem format_ignores_unused_arguments :
  ∀ (args more : list pyobj) (kwargs kwargs' : gmap string pyobj)
    (parse : string → parsed) (t : string) (c : Composable),
    SQL_format args kwargs parse t = Ok c →
    kwargs ⊆ kwargs' →
    SQL_format (args ++ more) kwargs' parse t = Ok c.
Proof.
  intros args more kwargs kwargs' parse t c H Hsub.
  apply (SQL_format_Ok args kwargs) in H as (l & -> & Hfail & Hl).
  apply (SQL_format_Ok (args ++ more) kwargs').
  exists l. split; [done|]. split; [done|].
  by apply (interleaved_mono args kwargs).
Qed.

Lemma format_ignores_unused_arguments_witness :
  SQL_format ([PyNode (Identifier "id")] ++ [PyInt 42])
    (<["unused" := PyNone]> ∅) Formatter_parse "select {0}"
  = Ok (Composed [SQL "select "; Identifier "id"]).
Proof.
  apply (format_ignores_unused_arguments [PyNode (Identifier "id")] [PyInt 42]
           ∅ (<["unused" := PyNone]> ∅) Formatter_parse "select {0}").
  - reflexivity.
  - apply map_empty_subseteq.
Defined.

Lemma count_markers_cons (it : parse_item) (its : list parse_item) :
  count_markers (it :: its)
  = (match name it with Some _ => 1 | None => 0 end + count_markers its)%nat.
Proof.
  unfold count_markers. rewrite filter_cons.
  destruct (name it) as [nm|]; simpl.
  - destruct (decide (is_Some (Some nm))) as [_|H]; [done|].
    destruct H. eauto.
  - destruct (decide (is_Some (@None string))) as [[? H]|_]; [discriminate|done].
Qed.

Lemma count_literals_cons (it : parse_item) (its : list parse_item) :
  count_literals (it :: its) = (length (literal it) + count_literals its)%nat.
Proof.
  unfold count_literals, literal. rewrite filter_cons.
  destruct (truthy (pre it)); simpl.
  - destruct (decide (true = true)); done.
  - destruct (decide (false = true)); done.
Qed.

Lemma format_loop_auto args kwargs (its : list parse_item) :
  forallb auto_or_text its = true →
  ∀ rv n,
    ((count_markers its ≤ length (drop n args))%nat →
     format_loop args kwargs its (State rv (Some n))
     = Ok (State (rv ++ fill_auto its (drop n args))
             (Some (n + count_markers its)%nat))) ∧
    ((length (drop n args) < count_markers its)%nat →
     format_loop args kwargs its (State rv (Some n)) = Raise IndexError).
Proof.
  induction its as [|it its IH]; intros Hall rv0 n.
  - split; [|unfold count_markers; simpl; lia]. intros _. simpl.
    by rewrite (right_id_L [] (++)), Nat.add_0_r.
  - simpl in Hall. apply andb_true_iff in Hall as [Hit Hall].
    unfold auto_or_text in Hit. apply andb_true_iff in Hit as [Hp Hname].
    specialize (IH Hall).
    rewrite count_markers_cons, format_loop_cons.
    rewrite (format_step_plain _ _ _ _ Hp). cbv zeta.
    simpl fill_auto. simpl rv. simpl autonum.
    destruct (name it) as [nm|] eqn:Hn.
    + assert (Hm : marker_of nm = AutoNumbered).
      { apply marker_of_auto. destruct nm; [done|discriminate]. }
      rewrite Hm. unfold tuple_getitem.
      destruct (args !! n) as [a|] eqn:Ha.
      * rewrite (drop_S _ _ _ Ha). rewrite !bind_Ok.
        destruct (IH (rv0 ++ (PyNode <$> literal it) ++ [a]) (S n))
          as [IHok IHfail].
        rewrite (assoc_L (++)) in IHok, IHfail. split.
        -- intros Hk. simpl in Hk. rewrite IHok by lia.
           rewrite <- !(assoc_L (++)). simpl. do 3 f_equal. lia.
        -- intros Hk. simpl in Hk. apply IHfail. lia.
      * apply lookup_ge_None in Ha. rewrite (drop_ge _ _ Ha). simpl.
        split; [lia|done].
    + rewrite bind_Ok. destruct (IH (rv0 ++ (PyNode <$> literal it)) n)
        as [IHok IHfail].
      split.
      * intros Hk. rewrite IHok by (simpl in Hk; lia).
        by rewrite <- (assoc_L (++)).
      * intros Hk. apply IHfail. simpl in Hk. lia.
Qed.

(** X12. Auto-numbered markers take the positional arguments in their
    order.  For a template that the parser splits into literal texts and
    auto-numbered markers only, [k] of them: with at least [k] positional
    arguments the result is [Composed] of the literal texts and, marker after
    marker, the first [k] arguments (the others are not looked at); with
    fewer than [k] arguments [format] raises [IndexError]. *)
Theorem format_auto_numbering :
  ∀ (args : list pyobj) (kwargs : gmap string pyobj)
    (parse : string → parsed) (t : string),
    failure (parse t) = None →
    forallb auto_or_text (items (parse t)) = true →
    ((count_markers (items (parse t)) ≤ length args)%nat →
     SQL_format args kwargs parse t
     = Composed_init (fill_auto (items (parse t)) args)) ∧
    ((length args < count_markers (items (parse t)))%nat →
     SQL_format args kwargs parse t = Raise IndexError).
Proof.
  intros args kwargs parse t Hfail Hall.
  destruct (format_loop_auto args kwargs _ Hall [] 0%nat) as [Hok Hshort].
  rewrite drop_0 in Hok, Hshort. unfold SQL_format, format_init. cbv zeta.
  split; intros Hk.
  - rewrite (Hok Hk), bind_Ok, Hfail. reflexivity.
  - by rewrite (Hshort Hk).
Qed.

Lemma format_auto_numbering_witness :
  SQL_format [PyNode (Identifier "a"); PyNode (Identifier "b"); PyInt 3] ∅
    Formatter_parse "{}, {};"
  = Ok (Composed [Identifier "a"; SQL ", "; Identifier "b"; SQL ";"]) ∧
  SQL_format [PyNode (Identifier "a")] ∅ Formatter_parse "{}, {};"
  = Raise IndexError.
Proof.
  split.
  - apply (proj1 (format_auto_numbering
                    [PyNode (Identifier "a"); PyNode (Identifier "b"); PyInt 3]
                    ∅ Formatter_parse "{}, {};" eq_refl eq_refl)).
    vm_compute. lia.
  - apply (proj2 (format_auto_numbering [PyNode (Identifier "a")]
                    ∅ Formatter_parse "{}, {};" eq_refl eq_refl)).
    vm_compute. lia.
Defined.

Lemma format_step_Raise_kind args kwargs st it e :
  format_step args kwargs st it = Raise e →
  (∃ w, e = ValueError w) ∨ is_LookupError e = true.
Proof.
  rewrite format_step_unfold.
  destruct (truthy_opt (spec it)); [intros [= <-]; eauto|].
  destruct (truthy_opt (conv it)); [intros [= <-]; eauto|].
  cbv zeta. destruct (name it) as [nm|]; [|discriminate].
  destruct (marker_of nm) as [|index|key].
  - destruct (autonum st) as [n|]; [|intros [= <-]; eauto].
    unfold tuple_getitem. destruct (args !! n); [discriminate|].
    intros [= <-]. by right.
  - destruct (autonum_truthy (autonum st)); [intros [= <-]; eauto|].
    unfold tuple_getitem. destruct (args !! index); [discriminate|].
    intros [= <-]. by right.
  - unfold dict_getitem. destruct (kwargs !! key); [discriminate|].
    intros [= <-]. by right.
Qed.

Lemma format_loop_Raise_kind args kwargs its st e :
  format_loop args kwargs its st = Raise e →
  (∃ w, e = ValueError w) ∨ is_LookupError e = true.
Proof.
  revert st. induction its as [|it its IH]; intros st; [discriminate|].
  rewrite format_loop_cons.
  destruct (format_step args kwargs st it) as [st'|e'] eqn:Hstep.
  - rewrite bind_Ok. apply IH.
  - intros [= <-]. by eapply format_step_Raise_kind.
Qed.

(** X13. An argument that is not a [Composable] is reported last: [format]
    raises a [TypeError] exactly when the parser ends without error, every
    tuple resolves against the arguments, and one of the objects collected
    for the result is not a [Composable].  So an exception of the template
    (specification, conversion, numbering, malformed text) and a missing
    argument come before it. *)
Theorem format_TypeError_comes_last :
  ∀ (args : list pyobj) (kwargs : gmap string pyobj)
    (parse : string → parsed) (t : string) (w : type_error),
    SQL_format args kwargs parse t = Raise (TypeError w) ↔
    w = ComposedElement ∧ failure (parse t) = None ∧
    ∃ l, interleaved args kwargs Unset 0 (items (parse t)) l ∧
         ∃ o, o ∈ l ∧ is_node o = false.
Proof.
  intros args kwargs parse t w. unfold SQL_format. cbv zeta. split.
  - destruct (format_loop args kwargs (items (parse t)) format_init)
      as [st|e] eqn:Hloop.
    + rewrite bind_Ok. destruct (failure (parse t)); [discriminate|].
      intros H.
      apply Composed_init_Raise_iff in H as ([= ->] & o & Ho & Hno).
      split; [done|]. split; [done|].
      destruct (format_loop_sound args kwargs _ _ _ Hloop) as (l & Hrv & Hl).
      simpl in Hrv. exists l. split.
      * apply Hl. split; [done|]. by intros n [= <-].
      * exists o. by rewrite <- Hrv.
    + intros [= ->]. apply format_loop_Raise_kind in Hloop as [[? ?]|?]; done.
  - intros (-> & Hfail & l & Hl & o & Ho & Hno).
    destruct (format_loop_complete args kwargs _ _ _ _ Hl format_init)
      as (st' & -> & Hrv).
    { split; [done|]. by intros n [= <-]. }
    rewrite bind_Ok, Hfail.
    apply Composed_init_Raise_iff.
    split; [done|]. exists o. by rewrite Hrv.
Qed.

Lemma format_TypeError_comes_last_witness :
  SQL_format [PyInt 42] ∅ Formatter_parse "select {}"
  = Raise (TypeError ComposedElement).
Proof.
  apply format_TypeError_comes_last. split; [done|]. split; [done|].
  exists [PyNode (SQL "select "); PyInt 42]. split.
  - apply (interleaved_auto _ _ Unset 0
             (Item "select " (Some "") (Some "") None) [] ""
             (PyInt 42) []);
      [reflexivity | reflexivity | reflexivity | discriminate | reflexivity |].
    apply interleaved_end.
  - exists (PyInt 42). split; [|done]. apply list_elem_of_In. right. by left.
Defined.

Lemma interleaved_length args kwargs m next its l :
  interleaved args kwargs m next its l →
  length l = (count_literals its + count_markers its)%nat.
Proof.
  induction 1 as [m next
                 | m next it its l Hp Hn _ IH
                 | m next it its nm a l Hp Hn Hm Hmode Hget _ IH
                 | m next it its nm index a l Hp Hn Hm Hmode Hget _ IH
                 | m next it its nm key a l Hp Hn Hm Hget _ IH];
    [reflexivity|..];
    rewrite count_literals_cons, count_markers_cons, Hn, length_app,
      length_fmap; simpl; lia.
Qed.

(** X14. The size of the result: when [format] succeeds, the [Composed]
    it returns has one child for every tuple of the parser with literal text
    and one for every marker, hence at most two per tuple. *)
Theorem format_children_count :
  ∀ (args : list pyobj) (kwargs : gmap string pyobj)
    (parse : string → parsed) (t : string) (c : Composable),
    SQL_format args kwargs parse t = Ok c →
    ∃ l, c = Composed l ∧
         length l = (count_literals (items (parse t))
                     + count_markers (items (parse t)))%nat ∧
         (length l ≤ 2 * length (items (parse t)))%nat.
Proof.
  intros args kwargs parse t c H.
  apply (SQL_format_Ok args kwargs) in H as (l & -> & _ & Hl).
  apply interleaved_length in Hl. rewrite length_fmap in Hl.
  exists l. split; [done|]. split; [done|]. rewrite Hl.
  unfold count_literals, count_markers.
  pose proof (length_filter (λ it, truthy (pre it) = true) (items (parse t))).
  pose proof (length_filter (λ it, is_Some (name it)) (items (parse t))).
  lia.
Qed.

Lemma format_children_count_witness :
  ∃ l, Ok (Composed [SQL "select "; Identifier "id"]) = Ok (Composed l) ∧
       length l = 2%nat.
Proof.
  destruct (format_children_count [PyNode (Identifier "id")] ∅
              Formatter_parse "select {0}"
              (Composed [SQL "select "; Identifier "id"]) eq_refl)
    as (l & Hl & Hlen & _).
  exists l. split; [by rewrite Hl | exact Hlen].
Defined.

(** ** Rendering and the context *)

Lemma for_each_ext {A B : Type} (f g : A → result B) (l : list A) :
  Forall (fun x => f x = g x) l → for_each f l = for_each g l.
Proof.
  induction 1 as [|x l Hx _ IH]; [reflexivity|].
  by rewrite !for_each_cons, Hx, IH.
Qed.

Lemma for_each_Ok_map {A B : Type} (f : A → result B) (g : A → B) (l : list A) :
  Forall (fun x => f x = Ok (g x)) l → for_each f l = Ok (map g l).
Proof.
  induction 1 as [|x l Hx _ IH]; [reflexivity|].
  by rewrite for_each_cons, Hx, IH.
Qed.

Lemma Forall_forallb_impl {A : Type} (f : A → bool) (P : A → Prop) (l : list A) :
  Forall (fun x => f x = true → P x) l → forallb f l = true → Forall P l.
Proof.
  induction 1 as [|x l Hx _ IH]; [constructor|].
  simpl. intros [Hfx Hl]%andb_true_iff. constructor; auto.
Qed.

(** X15. A node made of [SQL] and [Placeholder] objects only (at any depth
    of [Composed]) never fails to render and never looks at the context or
    at the driver: in every context, and whatever [quote_ident] and the
    adapters do, it renders to the same text, the concatenation of the
    wrapped texts and of the markers. *)
Theorem context_free_renders_text (x : Composable) :
  context_free x = true →
  ∀ (connection : Type)
    (quote_ident : string → context connection → result string)
    (getquoted : pyobj → connection → result string)
    (conn_or_curs : context connection),
    as_string quote_ident getquoted x conn_or_curs = Ok (text_of x).
Proof.
  intros Hx connection qi gq ctx. revert Hx.
  induction x as [l IH|s|s|v|[nm|]] using Composable_nested_ind;
    try reflexivity; try discriminate.
  intros Hl. simpl in Hl. rewrite as_string_Composed.
  rewrite (for_each_Ok_map _ text_of).
  - reflexivity.
  - by apply (Forall_forallb_impl context_free).
Qed.

Lemma context_free_renders_text_witness :
  as_string (connection := unit) (fun _ _ => Raise (External "quote_ident"))
    (fun _ _ => Raise (External "adapt"))
    (Composed [SQL "values ("; Composed [Placeholder None; SQL ", ";
                                         Placeholder (Some "name")]; SQL ")"])
    NeitherConnNorCurs
  = Ok "values (%s, %(name)s)".
Proof.
  apply (context_free_renders_text
           (Composed [SQL "values ("; Composed [Placeholder None; SQL ", ";
                                                Placeholder (Some "name")];
                      SQL ")"])).
  reflexivity.
Defined.

(** X16. Rendering through a cursor is rendering through its connection,
    for every node without [Identifier] (whose quoting receives the context
    itself): [Literal] takes the connection of the cursor.  In a context
    that is neither, a [Literal] raises a [TypeError] before any adapter is
    called. *)
Theorem cursor_renders_as_its_connection :
  ∀ (connection : Type)
    (quote_ident : string → context connection → result string)
    (getquoted : pyobj → connection → result string)
    (x : Composable) (conn_or_curs : context connection),
    (identifier_free x = true →
     as_string quote_ident getquoted x conn_or_curs
     = as_string quote_ident getquoted x (connection_of conn_or_curs)) ∧
    (∀ v, as_string quote_ident getquoted (Literal v) NeitherConnNorCurs
          = Raise (TypeError NotConnOrCurs)).
Proof.
  intros connection qi gq x ctx. split; [|reflexivity].
  induction x as [l IH|s|s|v|nm] using Composable_nested_ind;
    try reflexivity; try discriminate.
  - intros Hl. simpl in Hl. rewrite !as_string_Composed.
    rewrite (for_each_ext _ (fun i => as_string qi gq i (connection_of ctx)));
      [reflexivity|].
    by apply (Forall_forallb_impl identifier_free).
  - intros _. by destruct ctx.
Qed.

Lemma cursor_renders_as_its_connection_witness :
  as_string (connection := string) (fun s _ => Ok s)
    (fun _ conn => Ok ("'v' @ " +:+ conn))
    (Composed [SQL "x = "; Literal (PyStr "v")]) (IsCursor "db")
  = as_string (connection := string) (fun s _ => Ok s)
      (fun _ conn => Ok ("'v' @ " +:+ conn))
      (Composed [SQL "x = "; Literal (PyStr "v")]) (IsConnection "db").
Proof.
  apply (proj1 (cursor_renders_as_its_connection string (fun s _ => Ok s)
                  (fun _ conn => Ok ("'v' @ " +:+ conn))
                  (Composed [SQL "x = "; Literal (PyStr "v")])
                  (IsCursor "db"))).
  reflexivity.
Defined.

(** ** [Placeholder]: the markers *)

Lemma length_append (s t : string) :
  String.length (s +:+ t) = (String.length s + String.length t)%nat.
Proof.
  induction s as [|c s IH]; [reflexivity|].
  rewrite append_String. simpl. by rewrite IH.
Qed.

Lemma append_inj_r (s1 s2 t : string) : s1 +:+ t = s2 +:+ t → s1 = s2.
Proof.
  revert s2. induction s1 as [|c s1 IH]; intros [|d s2] H.
  - reflexivity.
  - apply (f_equal String.length) in H.
    rewrite !length_append in H. simpl in H. lia.
  - apply (f_equal String.length) in H.
    rewrite !length_append in H. simpl in H. lia.
  - rewrite !append_String in H. injection H as -> H. f_equal. by apply IH.
Qed.

(** X17. The markers are unambiguous.  Placeholders of different names
    render to different markers, and none of the named ones to the positional
    marker; and for a name accepted by the constructor the marker is
    ["%("], the name, [")s"], where the first [")"] of the marker is the
    one that closes the name. *)
Theorem Placeholder_markers_unambiguous :
  (∀ n1 n2 : option string,
     Placeholder_as_string n1 = Placeholder_as_string n2 → n1 = n2) ∧
  (∀ (s : string) (p : Composable),
     Placeholder_init (PyStr s) = Ok p →
     ∀ (connection : Type)
       (quote_ident : string → context connection → result string)
       (getquoted : pyobj → connection → result string)
       (conn_or_curs : context connection),
       as_string quote_ident getquoted p conn_or_curs
       = Ok (("%(" +:+ s) +:+ ")s") ∧
       ¬ has_char ")" ("%(" +:+ s)).
Proof.
  split.
  - intros [a|] [b|] H; try reflexivity; simpl in H.
    + f_equal. injection H as H.
      change (a +:+ ")s" = b +:+ ")s") in H. by apply append_inj_r in H.
    + discriminate H.
    + discriminate H.
  - intros s p Hp connection qi gq ctx. simpl in Hp.
    destruct (contains ")" s) eqn:E; [discriminate|]. injection Hp as <-.
    split; [reflexivity|].
    intros Hc. apply contains_has_char in Hc.
    change (contains ")" s = true) in Hc. congruence.
Qed.

Lemma Placeholder_markers_unambiguous_witness :
  Some "a" = Some "a" ∧
  ¬ has_char ")" ("%(" +:+ "name").
Proof.
  destruct Placeholder_markers_unambiguous as [Hinj Hmarker]. split.
  - apply Hinj. reflexivity.
  - apply (Hmarker "name" (Placeholder (Some "name")) eq_refl unit
             (fun s _ => Ok s) (fun _ _ => Ok "") NeitherConnNorCurs).
Defined.

(** ** How the operations compose *)

(** X18. Flat sequences stay flat: when the operands of [+] are leaves or
    [Composed] of leaves, so is the result; and joining a [Composed] of
    leaves, with either [join], gives a [Composed] of leaves. *)
Theorem leaves_only_kept :
  (∀ a b c, leaves_only a = true → leaves_only b = true →
            add a (PyNode b) = Ok c → leaves_only c = true) ∧
  (∀ l joiner c, forallb is_leaf l = true →
                 Composed_join l joiner = Ok c → leaves_only c = true) ∧
  (∀ s l c, forallb is_leaf l = true →
            SQL_join s (JoinComposed l) = Ok c → leaves_only c = true).
Proof.
  split; [|split].
  - intros a b c Ha Hb. rewrite add_flat. intros [= <-].
    unfold leaves_only in *. simpl. rewrite forallb_app. by rewrite Ha, Hb.
  - intros l joiner c Hl Hjoin.
    assert (Hvalid : ∃ s, joiner = PyStr s ∨ joiner = PyNode (SQL s)).
    { destruct joiner as [| | |s|[| s | | |]]; try discriminate; eauto. }
    destruct Hvalid as [s Hs].
    rewrite (Composed_join_valid _ _ s Hs) in Hjoin. injection Hjoin as <-.
    unfold leaves_only. simpl. by rewrite forallb_interpose.
  - intros s l c Hl. rewrite SQL_join_interpose, <- fmap_interpose.
    rewrite Composed_init_nodes. intros [= <-].
    unfold leaves_only. simpl. by rewrite forallb_interpose.
Qed.

Lemma leaves_only_kept_witness :
  leaves_only (Composed [SQL "a"; Identifier "b"; Placeholder None]) = true.
Proof.
  apply (proj1 leaves_only_kept (Composed [SQL "a"; Identifier "b"])
           (Placeholder None)); reflexivity.
Defined.

(** X19. Repetitions add up: for every node [x] and all integers
    [m, n >= 0] whose sum is an index-sized integer, [(x * m) + (x * n)] is
    [x * (m + n)]; and for a leaf [x], [x + x] is [x * 2]. *)
Theorem mul_add_distributes (x : Composable) (m n : Z) :
  (0 ≤ m)%Z → (0 ≤ n)%Z → (m + n ≤ maxsize)%Z →
  (∃ xm xn, __mul__ x (PyInt m) = Ok xm ∧ __mul__ x (PyInt n) = Ok xn ∧
            add xm (PyNode xn) = __mul__ x (PyInt (m + n))) ∧
  (is_leaf x = true → add x (PyNode x) = __mul__ x (PyInt 2)).
Proof.
  intros Hm Hn Hmn. split.
  - exists (Composed (replicate (Z.to_nat m) x)),
           (Composed (replicate (Z.to_nat n) x)).
    unfold __mul__. rewrite !list_mul_fits by lia.
    split; [reflexivity|]. split; [reflexivity|]. simpl.
    rewrite Z2Nat.inj_add by lia. by rewrite replicate_add.
  - intros Hx. by destruct x.
Qed.

Lemma mul_add_distributes_witness :
  add (Composed [Placeholder None; Placeholder None])
    (PyNode (Composed [Placeholder None]))
  = __mul__ (Placeholder None) (PyInt 3) ∧
  add (Placeholder None) (PyNode (Placeholder None))
  = __mul__ (Placeholder None) (PyInt 2).
Proof.
  destruct (mul_add_distributes (Placeholder None) 2 1) as [Hadd Hleaf];
    [lia | lia | unfold maxsize; lia |].
  split.
  - destruct Hadd as (xm & xn & Hxm & Hxn & H).
    injection Hxm as <-. injection Hxn as <-. exact H.
  - apply Hleaf. reflexivity.
Defined.

(** ** [Placeholder.__repr__] *)

(** X20. The representation of a placeholder shows its name, but does not
    tell the unnamed placeholder from the one named by the empty string: for
    an injective [%r], two placeholders have the same representation exactly
    when their names are equal once an absent name is read as the empty
    string; so [Placeholder()] and [Placeholder('')] are represented alike
    although they render to different markers. *)
Theorem Placeholder_repr_identifies_unnamed_and_empty (repr : string → string) :
  (∀ s1 s2, repr s1 = repr s2 → s1 = s2) →
  (∀ n1 n2 : option string,
     Placeholder_repr repr n1 = Placeholder_repr repr n2 ↔
     match n1 with Some nm => nm | None => "" end
     = match n2 with Some nm => nm | None => "" end) ∧
  Placeholder_repr repr None = Placeholder_repr repr (Some "") ∧
  Placeholder_as_string None ≠ Placeholder_as_string (Some "").
Proof.
  intros Hinj. split; [|split; [reflexivity|discriminate]].
  intros n1 n2. unfold Placeholder_repr. split.
  - intros H. injection H as H. apply Hinj. by eapply append_inj_r.
  - by intros ->.
Qed.

Lemma Placeholder_repr_identifies_unnamed_and_empty_witness :
  Placeholder_repr (fun s => s) None = Placeholder_repr (fun s => s) (Some "") ∧
  (Placeholder_repr (fun s => s) (Some "a")
   = Placeholder_repr (fun s => s) (Some "b") → "a" = "b").
Proof.
  destruct (Placeholder_repr_identifies_unnamed_and_empty (fun s => s))
    as (Hiff & Hsame & _).
  - intros s1 s2 H. exact H.
  - split; [exact Hsame|]. intros H. exact (proj1 (Hiff (Some "a") (Some "b")) H).
Defined.
